(** * filter_clang_tidy: partitioning a compilation database

    A shallow embedding of [build_linux/clang-tidy/filter_clang_tidy.py]
    and the properties of its pipeline
    read_config -> read_commands -> filter_sources -> filter_headers ->
    save_commands.

    Python [str] values are Rocq strings.  The module-level globals of the
    script are the fields of one [State] record that every stage threads
    through; the dictionaries created by [json.load] live in a heap and the
    three command lists hold references into it, since the script appends the
    same objects to [commands_inc] / [commands_exc] and later mutates them in
    place. *)

From Stdlib Require Import Ascii String.
From stdpp Require Import base list strings.

(** ** Python string operations used by the script *)

Module Py.

(** [s.startswith(p)] *)
Fixpoint startswith (s p : string) : bool :=
  match p with
  | EmptyString => true
  | String a p' =>
      match s with
      | EmptyString => false
      | String b s' => if Ascii.eqb a b then startswith s' p' else false
      end
  end.

(** [x in s] for two strings: [x] occurs at some offset of [s]. *)
Fixpoint contains (x s : string) : bool :=
  if startswith s x then true
  else match s with
       | EmptyString => false
       | String _ s' => contains x s'
       end.

(** [s.endswith(p)] *)
Fixpoint endswith (s p : string) : bool :=
  if String.eqb s p then true
  else match s with
       | EmptyString => false
       | String _ s' => endswith s' p
       end.

(** membership of a character in the character set of [lstrip]/[rstrip] *)
Fixpoint char_in (c : ascii) (chars : string) : bool :=
  match chars with
  | EmptyString => false
  | String a chars' => if Ascii.eqb a c then true else char_in c chars'
  end.

(** [s.lstrip(chars)] *)
Fixpoint lstrip (chars s : string) : string :=
  match s with
  | EmptyString => EmptyString
  | String c s' => if char_in c chars then lstrip chars s' else s
  end.

(** [s.rstrip(chars)] *)
Fixpoint rstrip (chars s : string) : string :=
  match s with
  | EmptyString => EmptyString
  | String c s' =>
      match rstrip chars s' with
      | EmptyString => if char_in c chars then EmptyString else String c EmptyString
      | r => String c r
      end
  end.

(** [s.rfind(c)] for a one-character [c]; [None] stands for -1. *)
Fixpoint rfind (c : ascii) (s : string) : option nat :=
  match s with
  | EmptyString => None
  | String a s' =>
      match rfind c s' with
      | Some k => Some (S k)
      | None => if Ascii.eqb a c then Some 0 else None
      end
  end.

(** [s[:i]] *)
Definition slice_to (i : nat) (s : string) : string := String.substring 0 i s.

(** [s * n] *)
Fixpoint repeat_str (s : string) (n : nat) : string :=
  match n with
  | 0 => EmptyString
  | S n' => s +:+ repeat_str s n'
  end.

(** [s.split(c)] for a one-character separator [c]. *)
Fixpoint split (c : ascii) (s : string) : list string :=
  match s with
  | EmptyString => [EmptyString]
  | String a s' =>
      if Ascii.eqb a c then EmptyString :: split c s'
      else match split c s' with
           | h :: t => String a h :: t
           | [] => [String a EmptyString]
           end
  end.

(** [sep.join(parts)] *)
Definition join (sep : string) (parts : list string) : string :=
  String.concat sep parts.

(** The scanning loop of [s.replace(old, new)] for a non-empty [old]:
    [skip] counts the characters of a match that are still to be dropped. *)
Fixpoint replace_scan (old new : string) (skip : nat) (s : string) : string :=
  match s with
  | EmptyString => EmptyString
  | String c s' =>
      match skip with
      | S k => replace_scan old new k s'
      | 0 =>
          if startswith s old
          then new +:+ replace_scan old new (String.length old - 1) s'
          else String c (replace_scan old new 0 s')
      end
  end.

(** [s.replace("", new)] puts [new] before every character and at the end. *)
Fixpoint intersperse (new s : string) : string :=
  match s with
  | EmptyString => new
  | String c s' => new +:+ String c (intersperse new s')
  end.

(** [s.replace(old, new)]: every occurrence of [old], found left to right
    without overlap, is replaced by [new]. *)
Definition replace (old new s : string) : string :=
  match old with
  | EmptyString => intersperse new s
  | String _ _ => replace_scan old new 0 s
  end.

End Py.

(** ** [os.path] on Linux ([posixpath])

    The functions below follow CPython's [posixpath] module, which is what
    [os.path] is for the Linux build this script lives in.  The current
    working directory that [abspath] reads is an explicit argument. *)

Module PosixPath.

Definition sep_char : ascii := "/"%char.
Definition sep : string := "/".
Definition curdir : string := ".".
Definition pardir : string := "..".

Definition isabs (p : string) : bool := Py.startswith p sep.

(** The loop body of [join(a, *p)]:
    [if b.startswith(sep): path = b
     elif not path or path.endswith(sep): path += b
     else: path += sep + b] *)
Definition join_step (path b : string) : string :=
  if Py.startswith b sep then b
  else if String.eqb path "" || Py.endswith path sep then path +:+ b
  else path +:+ sep +:+ b.

Definition join (a : string) (p : list string) : string :=
  fold_left join_step p a.

(** [i = p.rfind(sep) + 1; head = p[:i]
     if head and head != sep*len(head): head = head.rstrip(sep)] *)
Definition dirname (p : string) : string :=
  let i := match Py.rfind sep_char p with Some k => k + 1 | None => 0 end in
  let head := Py.slice_to i p in
  if negb (String.eqb head "")
     && negb (String.eqb head (Py.repeat_str sep (String.length head)))
  then Py.rstrip sep head
  else head.

(** The loop of [normpath] over the components, [new_comps] being the
    list built so far. *)
Fixpoint normpath_comps (initial_slashes : nat) (comps new_comps : list string)
  : list string :=
  match comps with
  | [] => new_comps
  | comp :: rest =>
      if String.eqb comp "" || String.eqb comp "."
      then normpath_comps initial_slashes rest new_comps
      else if negb (String.eqb comp "..")
              || (Nat.eqb initial_slashes 0 && bool_decide (new_comps = []))
              || (negb (bool_decide (new_comps = []))
                  && bool_decide (last new_comps = Some ".."))
      then normpath_comps initial_slashes rest (new_comps ++ [comp])
      else if negb (bool_decide (new_comps = []))
      then normpath_comps initial_slashes rest (removelast new_comps)
      else normpath_comps initial_slashes rest new_comps
  end.

Definition normpath (path : string) : string :=
  if String.eqb path "" then curdir
  else
    let initial_slashes :=
      if Py.startswith path sep then
        if Py.startswith path (Py.repeat_str sep 2)
           && negb (Py.startswith path (Py.repeat_str sep 3))
        then 2 else 1
      else 0 in
    let comps := normpath_comps initial_slashes (Py.split sep_char path) [] in
    let path' := Py.repeat_str sep initial_slashes +:+ Py.join sep comps in
    if String.eqb path' "" then curdir else path'.

(** [abspath(path)], with [cwd] the value of [os.getcwd()]. *)
Definition abspath (cwd path : string) : string :=
  normpath (if isabs path then path else join cwd [path]).

(** [commonprefix([l1, l2])] on two lists of components: their longest
    common prefix. *)
Fixpoint commonprefix (l1 l2 : list string) : list string :=
  match l1, l2 with
  | a :: l1', b :: l2' => if String.eqb a b then a :: commonprefix l1' l2' else []
  | _, _ => []
  end.

Definition nonempty_parts (p : string) : list string :=
  List.filter (fun x => negb (String.eqb x "")) (Py.split sep_char p).

(** [relpath(path, start)]; [None] is the [ValueError("no path specified")]
    raised for an empty [path]. *)
Definition relpath (cwd path start : string) : option string :=
  if String.eqb path "" then None
  else
    let start_list := nonempty_parts (abspath cwd start) in
    let path_list := nonempty_parts (abspath cwd path) in
    let i := length (commonprefix start_list path_list) in
    let rel_list := repeat pardir (length start_list - i) ++ drop i path_list in
    match rel_list with
    | [] => Some curdir
    | a :: p => Some (join a p)
    end.

End PosixPath.

(** ** The script *)

Module FilterClangTidy.

Import PosixPath.

(** Module-level constants.  [DEBUG] is [False] in the source; the
    branches it guards only print and are left out. *)
Definition GRACEFUL_EXIT : bool := false.
Definition DEF_BUILD : string := "../../_build".
Definition DEF_CONFIG : string := "excludes_clang_tidy.json".
Definition DEF_ISYSTEM : bool := false.

Definition newline : string := String "010"%char EmptyString.

(** One object of the compilation database: the [file] and [command]
    keys the script reads, and the remaining keys, which it never
    touches. *)
Record CompileEntry := mkEntry {
  file : string;
  command : string;
  others : list (string * string)
}.

(** [entry['command'] = c] *)
Definition set_command (c : string) (e : CompileEntry) : CompileEntry :=
  {| file := file e; command := c; others := others e |}.

(** A reference to a dictionary held in the heap. *)
Abbreviation ref := nat (only parsing).

(** What the file system answers: [os.path.exists], and what [json.load]
    returns for a config file (an array of arrays of strings) and for a
    compilation database (an array of objects). *)
Record Files := mkFiles {
  path_exists : string -> bool;
  load_config : string -> list (list string);
  load_commands : string -> list CompileEntry
}.

(** What [read_args] leaves behind, with the mode switch, the working
    directory that [os.path.relpath] consults, and what the Writer meets when
    it opens its files: whether [open(path, 'w')] can create the file, and
    whether the encoding of the file can encode the text that [json.dump]
    produces, with [ensure_ascii=False], for an array of objects. *)
Record Args := mkArgs {
  graceful_exit : bool;
  cwd : string;
  path_config : string;
  path_build : string;
  path_root : string;
  isystem : bool;
  can_create : string -> bool;
  can_encode : list CompileEntry -> bool
}.

Record State := mkState {
  args : Args;
  heap : list CompileEntry;
  commands : list ref;
  excludes : list string;
  commands_inc : list ref;
  commands_exc : list ref;
  stdout : list string;
  written : list (string * list CompileEntry);
  truncated : list string
}.

Definition set_heap (h : list CompileEntry) (st : State) : State :=
  mkState (args st) h (commands st) (excludes st) (commands_inc st)
          (commands_exc st) (stdout st) (written st) (truncated st).
Definition set_commands (c : list ref) (st : State) : State :=
  mkState (args st) (heap st) c (excludes st) (commands_inc st)
          (commands_exc st) (stdout st) (written st) (truncated st).
Definition set_excludes (x : list string) (st : State) : State :=
  mkState (args st) (heap st) (commands st) x (commands_inc st)
          (commands_exc st) (stdout st) (written st) (truncated st).
Definition set_commands_inc (c : list ref) (st : State) : State :=
  mkState (args st) (heap st) (commands st) (excludes st) c
          (commands_exc st) (stdout st) (written st) (truncated st).
Definition set_commands_exc (c : list ref) (st : State) : State :=
  mkState (args st) (heap st) (commands st) (excludes st) (commands_inc st)
          c (stdout st) (written st) (truncated st).
Definition set_stdout (o : list string) (st : State) : State :=
  mkState (args st) (heap st) (commands st) (excludes st) (commands_inc st)
          (commands_exc st) o (written st) (truncated st).
Definition set_written (w : list (string * list CompileEntry)) (st : State) : State :=
  mkState (args st) (heap st) (commands st) (excludes st) (commands_inc st)
          (commands_exc st) (stdout st) w (truncated st).
Definition set_truncated (t : list string) (st : State) : State :=
  mkState (args st) (heap st) (commands st) (excludes st) (commands_inc st)
          (commands_exc st) (stdout st) (written st) t.

(** The state at import time: every list is empty. *)
Definition initial_state (a : Args) : State :=
  mkState a [] [] [] [] [] [] [] [].

(** [print(msg)] *)
Definition print (msg : string) (st : State) : State :=
  set_stdout (stdout st ++ [msg]) st.

(** The argument of [SystemExit]: an integer status or a message. *)
Inductive exit_arg :=
| ExitCode (status : nat)
| ExitMessage (msg : string).

(** The exceptions that can leave a stage.  Python references never
    dangle; [DanglingReference] marks the heap lookups that cannot fail
    in a state built by [read_commands]. *)
Inductive exception :=
| SystemExit (a : exit_arg)
| ValueError (msg : string)
| OSError (path : string)
| UnicodeEncodeError
| DanglingReference.

(** A stage either runs to its end or raises, in both cases leaving the
    globals in some state. *)
Inductive outcome :=
| Normal (st : State)
| Raised (e : exception) (st : State).

Definition final_state (o : outcome) : State :=
  match o with Normal st => st | Raised _ st => st end.

Definition raised (o : outcome) : option exception :=
  match o with Normal _ => None | Raised e _ => Some e end.

(** Sequencing two stages: an exception ends the run. *)
Definition and_then (f g : State -> outcome) (st : State) : outcome :=
  match f st with
  | Normal st' => g st'
  | Raised e st' => Raised e st'
  end.

Notation "f >> g" := (and_then f g) (at level 61, left associativity).

(** [for x in xs: body] *)
Fixpoint for_each {A} (body : A -> State -> outcome) (xs : list A) (st : State)
  : outcome :=
  match xs with
  | [] => Normal st
  | x :: xs' =>
      match body x st with
      | Normal st' => for_each body xs' st'
      | Raised e st' => Raised e st'
      end
  end.

(** How the interpreter ends the process: the exit status, and the text
    written to stderr.  An uncaught [SystemExit] with an integer exits with
    it; with a string it prints the string and exits with 1; any other
    uncaught exception prints a traceback and exits with 1. *)
Definition exit_status (o : outcome) : nat :=
  match o with
  | Normal _ => 0
  | Raised (SystemExit (ExitCode n)) _ => n
  | Raised _ _ => 1
  end.

Definition stderr (o : outcome) : option string :=
  match o with
  | Normal _ => None
  | Raised (SystemExit (ExitCode _)) _ => None
  | Raised (SystemExit (ExitMessage m)) _ => Some m
  | Raised (ValueError m) _ => Some ("ValueError: " +:+ m)
  | Raised (OSError path) _ => Some ("OSError: " +:+ path)
  | Raised UnicodeEncodeError _ => Some "UnicodeEncodeError"
  | Raised DanglingReference _ => Some "DanglingReference"
  end.

Section Stages.

Variable fs : Files.

(** *** read_config *)

(** [exclude = os.path.sep + os.path.sep.join(exclude_raw)] *)
Definition make_exclude (exclude_raw : list string) : string :=
  sep +:+ Py.join sep exclude_raw.

Definition append_exclude (exclude_raw : list string) (st : State) : outcome :=
  Normal (set_excludes (excludes st ++ [make_exclude exclude_raw]) st).

Definition read_config (st : State) : outcome :=
  let path_config := path_config (args st) in
  if negb (path_exists fs path_config) then
    if graceful_exit (args st) then
      Raised (SystemExit (ExitCode 0))
             (print ("** ERROR - directory exclusion configuration is missing:"
                     +:+ newline +:+ path_config) st)
    else
      Raised (SystemExit (ExitMessage
                ("** FATAL - directory exclusion configuration is missing:"
                 +:+ newline +:+ path_config))) st
  else
    let excludes_raw := load_config fs path_config in
    for_each append_exclude excludes_raw st.

(** *** read_commands *)

Definition path_database (st : State) : string :=
  join (path_build (args st)) ["compile_commands.json"].

(** [commands = json.load(...)]: the objects are allocated after the ones
    already in the heap, and [commands] refers to them in file order. *)
Definition read_commands (st : State) : outcome :=
  let path_database := path_database st in
  if negb (path_exists fs path_database) then
    if graceful_exit (args st) then
      Raised (SystemExit (ExitCode 0))
             (print ("** ERROR - CMake-generated compilation database is missing:"
                     +:+ newline +:+ path_database) st)
    else
      Raised (SystemExit (ExitMessage
                ("** FATAL - CMake-generated compilation database is missing:"
                 +:+ newline +:+ path_database))) st
  else
    let loaded := load_commands fs path_database in
    Normal (set_commands (seq (length (heap st)) (length loaded))
              (set_heap (heap st ++ loaded) st)).

End Stages.

(** *** filter_sources *)

(** [for exclude in excludes:
       if exclude in path_str: include_folder = False; break]
    The result is the final value of [include_folder]. *)
Fixpoint include_folder (excludes : list string) (path_str : string) : bool :=
  match excludes with
  | [] => true
  | exclude :: rest =>
      if Py.contains exclude path_str then false
      else include_folder rest path_str
  end.

(** [os.path.sep + os.path.relpath(os.path.dirname(command['file']), path_root)];
    [None] when [relpath] raises. *)
Definition path_str (a : Args) (cmd : CompileEntry) : option string :=
  match relpath (cwd a) (dirname (file cmd)) (path_root a) with
  | Some rel => Some (sep +:+ rel)
  | None => None
  end.

(** The body of the loop over [commands]. *)
Definition filter_source (r : ref) (st : State) : outcome :=
  match heap st !! r with
  | None => Raised DanglingReference st
  | Some cmd =>
      match path_str (args st) cmd with
      | None => Raised (ValueError "no path specified") st
      | Some p =>
          if include_folder (excludes st) p
          then Normal (set_commands_inc (commands_inc st ++ [r]) st)
          else Normal (set_commands_exc (commands_exc st ++ [r]) st)
      end
  end.

Definition filter_sources (st : State) : outcome :=
  for_each filter_source (commands st) st.

(** *** filter_headers *)

(** [for index, value in enumerate(excludes):
       excludes[index] = value.lstrip(os.path.sep)]
    [todo] are the values still to be enumerated. *)
Fixpoint strip_excludes (todo : list string) (index : nat) (excludes : list string)
  : list string :=
  match todo with
  | [] => excludes
  | value :: rest =>
      strip_excludes rest (S index) (<[index := Py.lstrip sep value]> excludes)
  end.

Definition exclude_path (root exclude : string) : string := join root [exclude].
Definition header_include (root exclude : string) : string :=
  "-I" +:+ exclude_path root exclude.
Definition header_isystem (root exclude : string) : string :=
  "-isystem " +:+ exclude_path root exclude.

(** The body of the inner loop, for the object [r] and one [exclude]. *)
Definition filter_header (r : ref) (exclude : string) (st : State) : outcome :=
  match heap st !! r with
  | None => Raised DanglingReference st
  | Some cmd =>
      let header_include := header_include (path_root (args st)) exclude in
      if Py.contains header_include (command cmd) then
        let header_isystem := header_isystem (path_root (args st)) exclude in
        Normal (set_heap
                  (<[r := set_command
                            (Py.replace header_include header_isystem (command cmd))
                            cmd]> (heap st)) st)
      else Normal st
  end.

Definition filter_headers (st : State) : outcome :=
  if isystem (args st) then
    let st1 := set_excludes (strip_excludes (excludes st) 0 (excludes st)) st in
    for_each (fun r st' => for_each (filter_header r) (excludes st') st')
             (commands_inc st1) st1
  else Normal st.

(** *** save_commands *)

(** The objects a list of references denotes, as [json.dump] walks it. *)
Definition deref (h : list CompileEntry) (rs : list ref) : list CompileEntry :=
  omap (fun r => h !! r) rs.

(** [with open(path, 'w') as f: json.dump(rs, f, indent=4, ensure_ascii=False,
    sort_keys=False)].  [open] raises [OSError] when it cannot create the
    file, and nothing is written.  [json.dump] hands the text to the file
    piece by piece, and the file raises [UnicodeEncodeError] at the first piece
    its encoding cannot encode; the [with] block then closes the file, which
    is left with the text before that piece.  [written] records the files that
    got their whole array, [truncated] the paths of those left with a part. *)
Definition write_json (path : string) (rs : list ref) (st : State) : outcome :=
  if negb (can_create (args st) path) then Raised (OSError path) st
  else if can_encode (args st) (deref (heap st) rs)
  then Normal (set_written (written st ++ [(path, deref (heap st) rs)]) st)
  else Raised UnicodeEncodeError (set_truncated (truncated st ++ [path]) st).

Definition save_commands (st : State) : outcome :=
  let path_inc := join (path_build (args st)) ["compile_commands_inc.json"] in
  let path_exc := join (path_build (args st)) ["compile_commands_exc.json"] in
  (write_json path_inc (commands_inc st) >> write_json path_exc (commands_exc st)) st.

(** *** main, after [read_args] *)

Definition main (fs : Files) (a : Args) : outcome :=
  (read_config fs >> read_commands fs >> filter_sources >> filter_headers
     >> save_commands) (initial_state a).

End FilterClangTidy.

Import PosixPath FilterClangTidy.

(** * Notions used in the statements *)

(** The state in which [main] calls [filter_sources] when the two loaders
    have read the exclude list [excl] and the database [db]: the objects of
    the database fill the heap, [commands] refers to them in order, and the
    two result lists are still empty. *)
Definition partition_input (a : Args) (db : list CompileEntry) (excl : list string)
  : State :=
  mkState a db (seq 0 (length db)) excl [] [] [] [] [].

(** What the body of the loop of [filter_sources] decides for the object
    [r]: [Some true] for included, [Some false] for excluded, [None] when it
    raises before deciding. *)
Definition verdict (a : Args) (h : list CompileEntry) (excl : list string) (r : ref)
  : option bool :=
  match h !! r with
  | None => None
  | Some cmd =>
      match path_str a cmd with
      | None => None
      | Some p => Some (include_folder excl p)
      end
  end.

(** The state after the references [inc'] and [exc'] were appended to the
    two result lists. *)
Definition classified (st : State) (inc' exc' : list ref) : State :=
  set_commands_exc (commands_exc st ++ exc')
    (set_commands_inc (commands_inc st ++ inc') st).

(** The effect of one turn of the inner loop of [filter_headers] on the
    text of a command: the guarded [replace] of lines 181-187. *)
Definition rewrite_include (root text exclude : string) : string :=
  if Py.contains (header_include root exclude) text
  then Py.replace (header_include root exclude) (header_isystem root exclude) text
  else text.

(** The inner loop on the text of one command, over the stripped excludes. *)
Definition rewrite_command (root : string) (excl : list string) (text : string)
  : string :=
  fold_left (rewrite_include root) excl text.

(** The Header Rewriter on one command string, for the exclude list as the
    Config Loader built it: the leading separators are stripped first. *)
Definition header_rewriter (root : string) (excludes : list string) (text : string)
  : string :=
  rewrite_command root (map (Py.lstrip sep) excludes) text.

(** The heap after the outer loop of [filter_headers] over [inc]. *)
Definition rewrite_heap (root : string) (excl : list string) (inc : list ref)
    (h : list CompileEntry) : list CompileEntry :=
  fold_left
    (fun h r => alter (fun e => set_command (rewrite_command root excl (command e)) e) r h)
    inc h.

(** Following the spec's words (4.4): "For each ExcludedPath, strip its
    leading path separator, rejoin with the root directory to form an absolute
    excluded path, and construct two flag strings: the plain-include form
    (-I + absolute path) and the system-include form (-isystem + absolute
    path, space-separated)." *)
Definition spec_absolute_excluded_path (root excluded_path : string) : string :=
  join root [Py.lstrip sep excluded_path].
Definition spec_plain_include (root excluded_path : string) : string :=
  "-I" +:+ spec_absolute_excluded_path root excluded_path.
Definition spec_system_include (root excluded_path : string) : string :=
  "-isystem " +:+ spec_absolute_excluded_path root excluded_path.

(** Following the spec's words: [text'] is [text] with ALL occurrences of
    [old] replaced by [new]: [text] is cut at occurrences of [old] into pieces
    none of which contains [old] any more, and [text'] puts the same pieces
    together with [new] in between. *)
Inductive spec_replaced_all (old new : string) : string -> string -> Prop :=
| replaced_all (pieces : list string) :
    pieces <> [] ->
    Forall (fun p => Py.contains old p = false) pieces ->
    spec_replaced_all old new (Py.join old pieces) (Py.join new pieces).

(** Following the spec's words: "for every excluded path, if the
    plain-include form is a substring of the entry's command field, replace
    ALL occurrences of that substring with the system-include form", the
    excluded paths being taken in the order of the exclude list. *)
Inductive spec_rewrites (root : string) : list string -> string -> string -> Prop :=
| rewrites_done (text : string) :
    spec_rewrites root [] text text
| rewrites_absent (x : string) (xs : list string) (text text' : string) :
    Py.contains (spec_plain_include root x) text = false ->
    spec_rewrites root xs text text' ->
    spec_rewrites root (x :: xs) text text'
| rewrites_present (x : string) (xs : list string) (text text1 text' : string) :
    Py.contains (spec_plain_include root x) text = true ->
    spec_replaced_all (spec_plain_include root x) (spec_system_include root x)
                      text text1 ->
    spec_rewrites root xs text1 text' ->
    spec_rewrites root (x :: xs) text text'.



(** A run of the shipped script from [/root/build_linux/clang-tidy] with the
    build directory [/root/_build], hence the root directory [/root]; the
    build directory is writable and the encoding of the output files encodes
    every text. *)
Definition example_args (isys : bool) : Args :=
  mkArgs GRACEFUL_EXIT "/root/build_linux/clang-tidy"
         "/root/build_linux/clang-tidy/excludes_clang_tidy.json"
         "/root/_build" "/root" isys (fun _ => true) (fun _ => true).

(** A file system in which both input files exist, with the given parsed
    contents. *)
Definition example_files (config : list (list string)) (db : list CompileEntry)
  : Files :=
  mkFiles (fun _ => true) (fun _ => config) (fun _ => db).

(** The references the loop of [filter_sources] gets to classify: the
    longest prefix of [cmds] on which the body, deciding by [v], does not
    raise. *)
Fixpoint decided (v : nat -> option bool) (cmds : list nat) : list nat :=
  match cmds with
  | [] => []
  | r :: rest =>
      match v r with
      | Some _ => r :: decided v rest
      | None => []
      end
  end.

(** A path component that [normpath] keeps as it is: not empty, not [.] or
    [..], and without a separator. *)
Definition clean_component (c : string) : bool :=
  negb (String.eqb c "") && negb (String.eqb c ".") && negb (String.eqb c "..")
  && negb (Py.contains sep c).

(** The absolute path made of the components [comps]. *)
Definition abs_path (comps : list string) : string :=
  sep +:+ Py.join sep comps.

(** * Facts about the string operations *)

Section StringFacts.

Lemma str_app_nil_l (s : string) : "" +:+ s = s.
Proof. reflexivity. Qed.

Lemma str_app_cons (a : ascii) (s t : string) :
  String a s +:+ t = String a (s +:+ t).
Proof. reflexivity. Qed.

Lemma str_app_nil_r (s : string) : s +:+ "" = s.
Proof. induction s as [|a s IH]; [done|]. by rewrite str_app_cons, IH. Qed.

Lemma str_app_assoc (s t u : string) : (s +:+ t) +:+ u = s +:+ (t +:+ u).
Proof. induction s as [|a s IH]; [done|]. by rewrite !str_app_cons, IH. Qed.

Lemma str_app_length (s t : string) :
  String.length (s +:+ t) = String.length s + String.length t.
Proof. induction s as [|a s IH]; [done|]. rewrite str_app_cons. simpl. by rewrite IH. Qed.

Lemma startswith_nil (s : string) : Py.startswith s "" = true.
Proof. by destruct s. Qed.

Lemma startswith_cons (a b : ascii) (s p : string) :
  Py.startswith (String b s) (String a p) = true <-> a = b /\ Py.startswith s p = true.
Proof.
  simpl. destruct (Ascii.eqb_spec a b) as [->|Hne].
  - split; [done|]. by intros [_ ?].
  - split; [done|]. by intros [? _].
Qed.

Lemma startswith_app (p t : string) : Py.startswith (p +:+ t) p = true.
Proof.
  induction p as [|a p IH]; [apply startswith_nil|].
  rewrite str_app_cons. by apply startswith_cons.
Qed.

Lemma startswith_inv (s p : string) :
  Py.startswith s p = true -> exists t, s = p +:+ t.
Proof.
  revert s. induction p as [|a p IH]; intros s H.
  - by exists s.
  - destruct s as [|b s]; [done|].
    apply startswith_cons in H as [-> H].
    destruct (IH _ H) as [t ->]. by exists t.
Qed.

Lemma startswith_app_l (a b w : string) :
  Py.startswith a w = true -> Py.startswith (a +:+ b) w = true.
Proof.
  intros [t ->]%startswith_inv. rewrite str_app_assoc. apply startswith_app.
Qed.


Lemma contains_here (x s : string) :
  Py.startswith s x = true -> Py.contains x s = true.
Proof. intros H. destruct s; simpl in *; by rewrite H. Qed.

Lemma contains_cons (x : string) (c : ascii) (s : string) :
  Py.contains x (String c s) = true <->
  Py.startswith (String c s) x = true \/ Py.contains x s = true.
Proof.
  change (Py.contains x (String c s))
    with (if Py.startswith (String c s) x then true else Py.contains x s).
  destruct (Py.startswith (String c s) x); [by split; [left|]|].
  split; [by right|]. by intros [|].
Qed.

Lemma contains_nil (x : string) : Py.contains x "" = true <-> x = "".
Proof. destruct x; simpl; naive_solver. Qed.

Lemma contains_intro (u x v : string) : Py.contains x (u +:+ x +:+ v) = true.
Proof.
  induction u as [|c u IH].
  - rewrite str_app_nil_l. apply contains_here, startswith_app.
  - rewrite str_app_cons. apply contains_cons. by right.
Qed.

Lemma contains_inv (x s : string) :
  Py.contains x s = true -> exists u v, s = u +:+ x +:+ v.
Proof.
  induction s as [|c s IH]; intros H.
  - apply contains_nil in H as ->. by exists "", "".
  - apply contains_cons in H as [H|H].
    + apply startswith_inv in H as [t ->]. by exists "", t.
    + destruct (IH H) as (u & v & ->). by exists (String c u), v.
Qed.

(** [x in s] is exactly: [s] can be cut as [u + x + v]. *)
Lemma contains_spec (x s : string) :
  Py.contains x s = true <-> exists u v, s = u +:+ x +:+ v.
Proof.
  split; [apply contains_inv|]. intros (u & v & ->). apply contains_intro.
Qed.

Lemma contains_app_l (w a b : string) :
  Py.contains w a = true -> Py.contains w (a +:+ b) = true.
Proof.
  intros (u & v & ->)%contains_inv.
  rewrite !str_app_assoc. apply contains_intro.
Qed.


Lemma contains_trans (a b c : string) :
  Py.contains a b = true -> Py.contains b c = true -> Py.contains a c = true.
Proof.
  intros (u & v & ->)%contains_inv (u' & v' & ->)%contains_inv.
  rewrite !str_app_assoc, <- (str_app_assoc u' u). apply contains_intro.
Qed.

Lemma endswith_unfold (s p : string) :
  Py.endswith s p
  = if String.eqb s p then true
    else match s with
         | EmptyString => false
         | String _ s' => Py.endswith s' p
         end.
Proof. by destruct s. Qed.

Lemma endswith_spec (s p : string) :
  Py.endswith s p = true <-> exists h, s = h +:+ p.
Proof.
  split.
  - induction s as [|c s IH]; rewrite endswith_unfold.
    + destruct (String.eqb_spec "" p) as [<-|]; [|done]. by exists "".
    + destruct (String.eqb_spec (String c s) p) as [<-|_]; [by exists ""|].
      intros [h ->]%IH. by exists (String c h).
  - intros [h ->]. induction h as [|c h IH]; rewrite endswith_unfold.
    + by rewrite str_app_nil_l, String.eqb_refl.
    + rewrite str_app_cons, IH. by destruct (String.eqb _ _).
Qed.

(** A suffix of [a +:+ b] that is no longer than [b] is a suffix of [b]. *)
Lemma app_eq_app_suffix (a b h w : string) :
  a +:+ b = h +:+ w -> String.length w <= String.length b ->
  exists h', b = h' +:+ w.
Proof.
  revert h. induction a as [|c a IH]; intros h Heq Hlen.
  - by exists h.
  - destruct h as [|d h].
    + rewrite str_app_nil_l in Heq. subst w.
      rewrite str_app_cons in Hlen. simpl in Hlen. rewrite str_app_length in Hlen. lia.
    + rewrite !str_app_cons in Heq. injection Heq as _ Heq. by apply (IH h).
Qed.


(** *** [join] *)

Lemma join_cons_cons (sep x y : string) (l : list string) :
  Py.join sep (x :: y :: l) = x +:+ sep +:+ Py.join sep (y :: l).
Proof. reflexivity. Qed.

Lemma join_singleton (sep x : string) : Py.join sep [x] = x.
Proof. reflexivity. Qed.

Lemma join_cons_char (sep : string) (c : ascii) (q : string) (l : list string) :
  Py.join sep (String c q :: l) = String c (Py.join sep (q :: l)).
Proof. by destruct l. Qed.


(** *** [replace] *)

Lemma replace_scan_skip (old new u t : string) :
  Py.replace_scan old new (String.length u) (u +:+ t) = Py.replace_scan old new 0 t.
Proof. induction u as [|c u IH]; [done|]. by rewrite str_app_cons. Qed.

Lemma replace_scan_hit (old new t : string) :
  old <> "" ->
  Py.replace_scan old new 0 (old +:+ t) = new +:+ Py.replace_scan old new 0 t.
Proof.
  destruct old as [|a old]; [done|]. intros _.
  rewrite str_app_cons.
  change (Py.replace_scan (String a old) new 0 (String a (old +:+ t)))
    with (if Py.startswith (String a (old +:+ t)) (String a old)
          then new +:+ Py.replace_scan (String a old) new
                         (String.length (String a old) - 1) (old +:+ t)
          else String a (Py.replace_scan (String a old) new 0 (old +:+ t))).
  rewrite <- str_app_cons, startswith_app.
  replace (String.length (String a old) - 1) with (String.length old)
    by (simpl; lia).
  by rewrite replace_scan_skip.
Qed.

Lemma replace_scan_miss (old new : string) (c : ascii) (s : string) :
  Py.startswith (String c s) old = false ->
  Py.replace_scan old new 0 (String c s) = String c (Py.replace_scan old new 0 s).
Proof. intros H. simpl. simpl in H. by rewrite H. Qed.

(** [replace] cuts the text at occurrences of [old] into pieces that no
    longer contain [old], and joins the same pieces with [new]. *)
Lemma replace_pieces (old new s : string) :
  old <> "" ->
  exists pieces,
    pieces <> []
    /\ s = Py.join old pieces
    /\ Py.replace old new s = Py.join new pieces
    /\ Forall (fun p => Py.contains old p = false) pieces.
Proof.
  intros Hold.
  assert (Py.replace old new = Py.replace_scan old new 0) as ->.
  { by destruct old. }
  assert (Py.contains old "" = false) as Hnil.
  { destruct (Py.contains old "") eqn:H; [|done]. by apply contains_nil in H. }
  remember (String.length s) as n eqn:Hn.
  revert s Hn. induction n as [n IH] using lt_wf_ind. intros s ->.
  destruct s as [|c s].
  { exists [""]. by repeat constructor. }
  destruct (Py.startswith (String c s) old) eqn:Hstart.
  - destruct (startswith_inv _ _ Hstart) as [t Ht]. rewrite Ht.
    destruct (IH (String.length t)) with (s := t)
      as (pieces & Hne & Hjoin & Hrep & Hfree); [|done|].
    { rewrite Ht, str_app_length. destruct old; [done|]. simpl. lia. }
    destruct pieces as [|q pieces]; [done|].
    exists ("" :: q :: pieces). split_and!; [done|..].
    + by rewrite join_cons_cons, str_app_nil_l, <- Hjoin.
    + by rewrite join_cons_cons, str_app_nil_l, replace_scan_hit, Hrep.
    + by constructor.
  - destruct (IH (String.length s)) with (s := s)
      as (pieces & Hne & Hjoin & Hrep & Hfree); [simpl; lia|done|].
    destruct pieces as [|q pieces]; [done|].
    apply Forall_cons in Hfree as [Hq Hfree].
    exists (String c q :: pieces). split_and!; [done|..].
    + by rewrite join_cons_char, <- Hjoin.
    + by rewrite join_cons_char, replace_scan_miss, Hrep.
    + constructor; [|done].
      destruct (Py.contains old (String c q)) eqn:Hc; [|done].
      apply contains_cons in Hc as [Hc|Hc]; [|congruence].
      assert (Py.startswith (String c s) old = true) as H; [|congruence].
      rewrite Hjoin, <- join_cons_char.
      destruct pieces as [|q' pieces]; [done|].
      rewrite join_cons_cons. by apply startswith_app_l.
Qed.

End StringFacts.

(** * The Partitioner *)

Section Partitioner.

(** The inner loop is an existence test over the exclude list. *)
Lemma include_folder_false (excl : list string) (p : string) :
  include_folder excl p = false <-> exists x, x ∈ excl /\ Py.contains x p = true.
Proof.
  induction excl as [|x excl IH]; simpl.
  - split; [done|]. intros (x & Hx & _). by apply elem_of_nil in Hx.
  - destruct (Py.contains x p) eqn:Hc.
    + split; [|done]. intros _. exists x. split; [left|done].
    + rewrite IH. split.
      * intros (y & Hy & Hyp). exists y. split; [by right|done].
      * intros (y & Hy & Hyp). apply elem_of_cons in Hy as [->|Hy]; [congruence|].
        by exists y.
Qed.

Lemma include_folder_perm (excl excl' : list string) (p : string) :
  excl ≡ₚ excl' -> include_folder excl p = include_folder excl' p.
Proof.
  intros HP.
  destruct (include_folder excl p) eqn:H1, (include_folder excl' p) eqn:H2; try done.
  - apply include_folder_false in H2 as (x & Hx & Hc).
    assert (include_folder excl p = false) as H; [|congruence].
    apply include_folder_false. exists x. by rewrite HP.
  - apply include_folder_false in H1 as (x & Hx & Hc).
    assert (include_folder excl' p = false) as H; [|congruence].
    apply include_folder_false. exists x. by rewrite <- HP.
Qed.

Lemma filter_source_cases (r : ref) (st : State) :
  filter_source r st =
  match verdict (args st) (heap st) (excludes st) r with
  | Some true => Normal (set_commands_inc (commands_inc st ++ [r]) st)
  | Some false => Normal (set_commands_exc (commands_exc st ++ [r]) st)
  | None =>
      Raised (match heap st !! r with
              | None => DanglingReference
              | Some _ => ValueError "no path specified"
              end) st
  end.
Proof.
  unfold filter_source, verdict.
  destruct (heap st !! r) as [cmd|]; [|done].
  destruct (path_str (args st) cmd) as [p|]; [|done].
  by destruct (include_folder (excludes st) p).
Qed.

Lemma classified_nil (st : State) : classified st [] [] = st.
Proof. destruct st. unfold classified. simpl. by rewrite !app_nil_r. Qed.

Lemma classified_inc (st : State) (r : ref) (inc' exc' : list ref) :
  classified (set_commands_inc (commands_inc st ++ [r]) st) inc' exc'
  = classified st (r :: inc') exc'.
Proof. unfold classified. simpl. by rewrite <- app_assoc. Qed.

Lemma classified_exc (st : State) (r : ref) (inc' exc' : list ref) :
  classified (set_commands_exc (commands_exc st ++ [r]) st) inc' exc'
  = classified st inc' (r :: exc').
Proof. unfold classified. simpl. by rewrite <- app_assoc. Qed.

Lemma outcome_normal (o : outcome) :
  raised o = None -> o = Normal (final_state o).
Proof. by destruct o. Qed.

(** The loop classifies a prefix of the list it walks, all of it unless the
    body raises, and changes nothing but the two result lists. *)
Lemma filter_sources_loop (cmds : list ref) (st : State) :
  let v := verdict (args st) (heap st) (excludes st) in
  let o := for_each filter_source cmds st in
  exists processed,
    processed `prefix_of` cmds
    /\ final_state o
       = classified st (filter (fun r => v r = Some true) processed)
                       (filter (fun r => v r = Some false) processed)
    /\ (raised o = None <-> processed = cmds)
    /\ (Forall (fun r => is_Some (v r)) cmds -> processed = cmds).
Proof.
  revert st. induction cmds as [|r cmds IH]; intros st v o.
  - exists []. subst o. simpl. by rewrite classified_nil.
  - subst o. simpl. rewrite filter_source_cases. fold v.
    destruct (v r) as [[|]|] eqn:Hv.
    + destruct (IH (set_commands_inc (commands_inc st ++ [r]) st))
        as (processed & Hpre & Hfin & Hraised & Hall).
      simpl in *. fold v in Hfin, Hall.
      exists (r :: processed). split_and!.
      * by apply prefix_cons.
      * rewrite Hfin, classified_inc, filter_cons_True by done.
        rewrite filter_cons_False; [done|]. by rewrite Hv.
      * rewrite Hraised. split; [by intros ->|by intros [= ->]].
      * intros [_ H]%Forall_cons. by rewrite Hall.
    + destruct (IH (set_commands_exc (commands_exc st ++ [r]) st))
        as (processed & Hpre & Hfin & Hraised & Hall).
      simpl in *. fold v in Hfin, Hall.
      exists (r :: processed). split_and!.
      * by apply prefix_cons.
      * rewrite Hfin, classified_exc, (filter_cons_True (fun r => v r = Some false)) by done.
        rewrite filter_cons_False; [done|]. by rewrite Hv.
      * rewrite Hraised. split; [by intros ->|by intros [= ->]].
      * intros [_ H]%Forall_cons. by rewrite Hall.
    + exists []. simpl. rewrite classified_nil. split_and!; try done.
      * apply prefix_nil.
      * intros [[? H] _]%Forall_cons. by rewrite Hv in H.
Qed.

(** A decided list splits into the included and the excluded references. *)
Lemma verdict_split_length (v : ref -> option bool) (l : list ref) :
  Forall (fun r => is_Some (v r)) l ->
  length (filter (fun r => v r = Some true) l)
  + length (filter (fun r => v r = Some false) l) = length l.
Proof.
  induction 1 as [|r l [b Hb] _ IH]; [done|].
  rewrite !filter_cons. destruct b.
  - rewrite decide_True, decide_False by congruence. simpl. lia.
  - rewrite decide_False, decide_True by congruence. simpl. lia.
Qed.

Lemma relpath_is_Some (cwd p start : string) :
  p <> "" -> is_Some (relpath cwd p start).
Proof.
  intros Hp. unfold relpath.
  destruct (String.eqb_spec p "") as [->|_]; [done|].
  by destruct (_ ++ _).
Qed.

Lemma relpath_None (cwd p start : string) :
  relpath cwd p start = None <-> p = "".
Proof.
  split.
  - intros H. destruct (decide (p = "")) as [|Hne]; [done|].
    apply (relpath_is_Some cwd p start) in Hne as [? ?]. congruence.
  - by intros ->.
Qed.

(** Every separator-prefixed relative directory starts with the separator. *)
Lemma path_str_starts_with_sep (a : Args) (cmd : CompileEntry) (p : string) :
  path_str a cmd = Some p -> Py.startswith p sep = true.
Proof.
  unfold path_str. destruct (relpath _ _ _) as [rel|]; [|done].
  intros [= <-]. apply startswith_app.
Qed.

Lemma prefix_sublist (l1 l2 : list ref) : l1 `prefix_of` l2 -> l1 `sublist_of` l2.
Proof. intros [k ->]. by apply sublist_inserts_r. Qed.

Lemma partition_input_verdict (a : Args) (db : list CompileEntry) (excl : list string) :
  Forall (fun e => dirname (file e) <> "") db ->
  Forall (fun r => is_Some (verdict a db excl r)) (seq 0 (length db)).
Proof.
  intros Hdb. apply Forall_forall. intros r [_ Hr]%elem_of_seq. simpl in Hr.
  destruct (lookup_lt_is_Some_2 db r Hr) as [cmd Hcmd].
  unfold is_Some, verdict, path_str. rewrite Hcmd.
  assert (dirname (file cmd) <> "") as Hdir.
  { rewrite Forall_forall in Hdb. by eapply Hdb, list_elem_of_lookup_2. }
  destruct (relpath_is_Some (cwd a) _ (path_root a) Hdir) as [rel ->]. eauto.
Qed.

(** With the separator alone in the exclude list nothing is included. *)
Lemma verdict_sep_excluded (a : Args) (h : list CompileEntry) (excl : list string)
    (r : ref) :
  sep ∈ excl -> verdict a h excl r <> Some true.
Proof.
  intros Hsep. unfold verdict.
  destruct (h !! r) as [cmd|]; [|done].
  destruct (path_str a cmd) as [p|] eqn:Hp; [|done].
  assert (include_folder excl p = false) as ->; [|done].
  apply include_folder_false. exists sep. split; [done|].
  by apply contains_here, (path_str_starts_with_sep a cmd).
Qed.

End Partitioner.

(** * The loaders *)

Section Loaders.

Variable fs : Files.

Lemma append_excludes_loop (raw : list (list string)) (st : State) :
  for_each append_exclude raw st
  = Normal (set_excludes (excludes st ++ map make_exclude raw) st).
Proof.
  revert st. induction raw as [|x raw IH]; intros st; simpl.
  - rewrite app_nil_r. by destruct st.
  - rewrite IH. simpl. by rewrite <- app_assoc.
Qed.

Lemma read_config_present (st : State) :
  path_exists fs (path_config (args st)) = true ->
  read_config fs st
  = Normal (set_excludes
              (excludes st ++ map make_exclude (load_config fs (path_config (args st))))
              st).
Proof. intros H. unfold read_config. rewrite H. simpl. apply append_excludes_loop. Qed.

Lemma read_commands_present (st : State) :
  path_exists fs (path_database st) = true ->
  read_commands fs st
  = Normal (set_commands
              (seq (length (heap st)) (length (load_commands fs (path_database st))))
              (set_heap (heap st ++ load_commands fs (path_database st)) st)).
Proof. intros H. unfold read_commands. by rewrite H. Qed.

(** When both files exist the loaders hand [partition_input] to the
    Partitioner. *)
Lemma loaders_reach_partition_input (a : Args) :
  path_exists fs (path_config a) = true ->
  path_exists fs (path_database (initial_state a)) = true ->
  (read_config fs >> read_commands fs) (initial_state a)
  = Normal (partition_input a (load_commands fs (path_database (initial_state a)))
              (map make_exclude (load_config fs (path_config a)))).
Proof.
  intros Hc Hd. unfold and_then.
  rewrite read_config_present by done.
  by rewrite read_commands_present.
Qed.

End Loaders.

(** * Properties of the Partitioner *)

Section PartitionerProperties.

(** C1, as the spec states it, fails: a database entry whose [file] has no
    directory part makes [os.path.relpath] raise [ValueError], the run ends
    there and the entry is in neither set. *)
Lemma bare_file_name_is_not_partitioned :
  let fs := example_files [["foo"]] [mkEntry "x.cpp" "cc -c x.cpp" []] in
  let o := main fs (example_args false) in
  raised o = Some (ValueError "no path specified")
  /\ commands (final_state o) = [0]
  /\ commands_inc (final_state o) = []
  /\ commands_exc (final_state o) = []
  /\ length (commands_inc (final_state o)) + length (commands_exc (final_state o))
     <> length (commands (final_state o)).
Proof. vm_compute. by split_and!. Qed.

(** C1 (amended): for every database whose entries all have a [file] with a
    non-empty directory part, and every exclude list, the Partitioner runs to
    its end and puts each of the N entries into exactly one of the two sets:
    the sizes add up to N, no reference is in both sets, none is repeated,
    and the references classified are exactly those of the database. *)
Theorem partition_complete (a : Args) (db : list CompileEntry) (excl : list string) :
  Forall (fun e => dirname (file e) <> "") db ->
  exists st',
    filter_sources (partition_input a db excl) = Normal st'
    /\ length (commands_inc st') + length (commands_exc st') = length db
    /\ (forall r, r ∈ commands_inc st' -> r ∈ commands_exc st' -> False)
    /\ NoDup (commands_inc st') /\ NoDup (commands_exc st')
    /\ (forall r, r < length db <-> r ∈ commands_inc st' \/ r ∈ commands_exc st')
    /\ heap st' = db /\ commands st' = seq 0 (length db).
Proof.
  intros Hdb. pose proof (partition_input_verdict a db excl Hdb) as Hv.
  destruct (filter_sources_loop (seq 0 (length db)) (partition_input a db excl))
    as (processed & _ & Hfin & Hraised & Hall).
  simpl in *. specialize (Hall Hv). subst processed.
  exists (final_state (filter_sources (partition_input a db excl))).
  split; [by apply outcome_normal, Hraised|].
  unfold filter_sources. simpl. rewrite Hfin. simpl. split_and!; try done.
  - rewrite verdict_split_length, length_seq; done.
  - intros r [H1 _]%list_elem_of_filter [H2 _]%list_elem_of_filter. congruence.
  - apply NoDup_filter, NoDup_seq.
  - apply NoDup_filter, NoDup_seq.
  - intros r. rewrite !list_elem_of_filter, elem_of_seq. split.
    + intros Hr. rewrite Forall_forall in Hv.
      destruct (Hv r) as [[|] Hb]; [apply elem_of_seq; lia|left|right];
        (split; [done|lia]).
    + intros [[_ ?]|[_ ?]]; lia.
Qed.

Lemma partition_complete_witness :
  exists st',
    filter_sources
      (partition_input (example_args false)
         [mkEntry "/root/vendor/lib/x.cpp" "cc -Ivendor/lib -c x.cpp" [];
          mkEntry "/root/src/y.cpp" "cc -c y.cpp" []]
         ["/vendor/lib"]) = Normal st'
    /\ length (commands_inc st') + length (commands_exc st') = 2
    /\ (forall r, r ∈ commands_inc st' -> r ∈ commands_exc st' -> False)
    /\ NoDup (commands_inc st') /\ NoDup (commands_exc st')
    /\ (forall r, r < 2 <-> r ∈ commands_inc st' \/ r ∈ commands_exc st')
    /\ heap st' = [mkEntry "/root/vendor/lib/x.cpp" "cc -Ivendor/lib -c x.cpp" [];
                   mkEntry "/root/src/y.cpp" "cc -c y.cpp" []]
    /\ commands st' = [0; 1].
Proof.
  apply (partition_complete (example_args false)
           [mkEntry "/root/vendor/lib/x.cpp" "cc -Ivendor/lib -c x.cpp" [];
            mkEntry "/root/src/y.cpp" "cc -c y.cpp" []]
           ["/vendor/lib"]).
  repeat constructor; vm_compute; discriminate.
Defined.

(** C2: with the exclude entry [["foo"]] and the root [/root] the script
    excludes [/root/foo/bar.cpp], and it excludes [/root/foobar/bar.cpp] as
    well: the exclude string ["/foo"] is a substring of ["/foobar"]. *)
Theorem foo_also_excludes_foobar :
  let foo := mkEntry "/root/foo/bar.cpp" "cc -c bar.cpp" [] in
  let foobar := mkEntry "/root/foobar/bar.cpp" "cc -c bar.cpp" [] in
  let o := main (example_files [["foo"]] [foo; foobar]) (example_args false) in
  raised o = None
  /\ excludes (final_state o) = ["/foo"]
  /\ path_str (example_args false) foo = Some "/foo"
  /\ path_str (example_args false) foobar = Some "/foobar"
  /\ Py.contains "/foo" "/foobar" = true
  /\ commands_inc (final_state o) = []
  /\ commands_exc (final_state o) = [0; 1].
Proof. vm_compute. by split_and!. Qed.

(** C3: the test of the Partitioner is a plain substring test on the
    separator-prefixed relative directory, and so the excluded path [/foo]
    matches the relative directory [/sub/foo/bar]: the entry is excluded
    although [foo] is not the first segment under the root. *)
Theorem substring_matches_mid_path :
  (forall excl p,
     include_folder excl p = false
     <-> exists x u v, x ∈ excl /\ p = u +:+ x +:+ v)
  /\ let e := mkEntry "/root/sub/foo/bar/x.cpp" "cc -c x.cpp" [] in
     let o := main (example_files [["foo"]] [e]) (example_args false) in
     raised o = None
     /\ excludes (final_state o) = ["/foo"]
     /\ path_str (example_args false) e = Some "/sub/foo/bar"
     /\ "/sub/foo/bar" = "/sub" +:+ "/foo" +:+ "/bar"
     /\ commands_inc (final_state o) = []
     /\ commands_exc (final_state o) = [0].
Proof.
  split.
  - intros excl p. rewrite include_folder_false. split.
    + intros (x & Hx & (u & v & ->)%contains_inv). by exists x, u, v.
    + intros (x & u & v & Hx & ->). exists x. split; [done|apply contains_intro].
  - vm_compute. by split_and!.
Qed.

(** C4: whatever the database and the exclude list, and whether the loop
    ends or raises, the references appended to each of the two lists come in
    the order of [commands]; from [partition_input], both lists are
    sublists of the database order. *)
Theorem partition_preserves_order :
  (forall st : State,
     let o := filter_sources st in
     exists inc' exc',
       commands_inc (final_state o) = commands_inc st ++ inc'
       /\ commands_exc (final_state o) = commands_exc st ++ exc'
       /\ inc' `sublist_of` commands st
       /\ exc' `sublist_of` commands st)
  /\ (forall a db excl,
        let o := filter_sources (partition_input a db excl) in
        commands_inc (final_state o) `sublist_of` seq 0 (length db)
        /\ commands_exc (final_state o) `sublist_of` seq 0 (length db)).
Proof.
  assert (forall st : State,
     let o := filter_sources st in
     exists inc' exc',
       commands_inc (final_state o) = commands_inc st ++ inc'
       /\ commands_exc (final_state o) = commands_exc st ++ exc'
       /\ inc' `sublist_of` commands st
       /\ exc' `sublist_of` commands st) as Hgen.
  { intros st o.
    destruct (filter_sources_loop (commands st) st)
      as (processed & Hpre%prefix_sublist & Hfin & _).
    simpl in Hfin. subst o. unfold filter_sources. rewrite Hfin.
    exists (filter (fun r => verdict (args st) (heap st) (excludes st) r = Some true)
              processed),
           (filter (fun r => verdict (args st) (heap st) (excludes st) r = Some false)
              processed).
    simpl. split; [done|]. split; [done|].
    split; (etrans; [apply sublist_filter|done]). }
  split; [done|].
  intros a db excl o. destruct (Hgen (partition_input a db excl))
    as (inc' & exc' & Hi & He & Hsi & Hse).
  subst o. rewrite Hi, He. by split.
Qed.

(** C8: the decision for an entry does not depend on the order of the
    exclude list: under any permutation the loop body raises or not alike
    and appends to the same list; and when the relative directory string
    [p] exists, the entry is excluded iff some excluded path occurs in [p]. *)
Theorem exclusion_independent_of_exclude_order
    (st : State) (r : ref) (excl' : list string) :
  excl' ≡ₚ excludes st ->
  let o := filter_source r st in
  let o' := filter_source r (set_excludes excl' st) in
  raised o' = raised o
  /\ commands_inc (final_state o') = commands_inc (final_state o)
  /\ commands_exc (final_state o') = commands_exc (final_state o)
  /\ (forall cmd p,
        heap st !! r = Some cmd -> path_str (args st) cmd = Some p ->
        (commands_exc (final_state o) = commands_exc st ++ [r]
         <-> exists x, x ∈ excludes st /\ Py.contains x p = true)).
Proof.
  intros HP o o'. subst o o'. unfold filter_source. simpl.
  destruct (heap st !! r) as [cmd|]; [|by do 3 (split; [done|])].
  destruct (path_str (args st) cmd) as [p|] eqn:Hp.
  2:{ do 3 (split; [done|]). intros ? ? [= <-]. congruence. }
  rewrite (include_folder_perm excl' (excludes st) p HP).
  split; [by destruct (include_folder (excludes st) p)|].
  split; [by destruct (include_folder (excludes st) p)|].
  split; [by destruct (include_folder (excludes st) p)|].
  intros ? p' [= <-] Hp'. assert (p' = p) as -> by congruence.
  rewrite <- include_folder_false.
  destruct (include_folder (excludes st) p); simpl; [|done].
  split; [|done]. intros H. exfalso.
  apply (f_equal length) in H. rewrite length_app in H. simpl in H. lia.
Qed.

Lemma exclusion_independent_of_exclude_order_witness :
  let st := partition_input (example_args false)
              [mkEntry "/root/vendor/lib/x.cpp" "cc -c x.cpp" []]
              ["/src"; "/vendor/lib"] in
  let o := filter_source 0 st in
  let o' := filter_source 0 (set_excludes ["/vendor/lib"; "/src"] st) in
  raised o' = raised o
  /\ commands_inc (final_state o') = commands_inc (final_state o)
  /\ commands_exc (final_state o') = commands_exc (final_state o)
  /\ (forall cmd p,
        heap st !! 0 = Some cmd -> path_str (args st) cmd = Some p ->
        (commands_exc (final_state o) = commands_exc st ++ [0]
         <-> exists x, x ∈ excludes st /\ Py.contains x p = true)).
Proof.
  apply (exclusion_independent_of_exclude_order
           (partition_input (example_args false)
              [mkEntry "/root/vendor/lib/x.cpp" "cc -c x.cpp" []]
              ["/src"; "/vendor/lib"]) 0 ["/vendor/lib"; "/src"]).
  simpl. apply Permutation_swap.
Defined.

(** C10, as stated, fails on the same input as C1: with an empty inner
    array in the config and an entry whose [file] has no directory part, the
    exclude list holds the separator alone, but the Partitioner raises and
    the entry is not classified as excluded. *)
Lemma empty_inner_array_bare_file_name :
  let fs := example_files [[]] [mkEntry "x.cpp" "cc -c x.cpp" []] in
  let o := main fs (example_args false) in
  excludes (final_state o) = [sep]
  /\ commands (final_state o) = [0]
  /\ raised o = Some (ValueError "no path specified")
  /\ commands_exc (final_state o) = [].
Proof. vm_compute. by split_and!. Qed.

(** C10 (amended): if the config array contains an empty inner array, the
    Config Loader produces the separator alone as one excluded path; then no
    entry of any database is ever put into IncludedSet, and for a database
    whose entries all have a [file] with a non-empty directory part the
    Partitioner classifies every entry as excluded. *)
Theorem empty_inner_array_excludes_all (fs : Files) (a : Args) :
  path_exists fs (path_config a) = true ->
  path_exists fs (path_database (initial_state a)) = true ->
  [] ∈ load_config fs (path_config a) ->
  exists st1,
    (read_config fs >> read_commands fs) (initial_state a) = Normal st1
    /\ make_exclude [] = sep
    /\ sep ∈ excludes st1
    /\ heap st1 = load_commands fs (path_database (initial_state a))
    /\ commands st1 = seq 0 (length (heap st1))
    /\ commands_inc (final_state (filter_sources st1)) = []
    /\ (Forall (fun e => dirname (file e) <> "") (heap st1) ->
        exists st2, filter_sources st1 = Normal st2
                    /\ commands_inc st2 = []
                    /\ commands_exc st2 = commands st1).
Proof.
  intros Hc Hd Hin. eexists. split; [by apply loaders_reach_partition_input|].
  set (db := load_commands fs _). set (excl := map make_exclude _).
  assert (sep ∈ excl) as Hsep.
  { apply (list_elem_of_fmap_2 make_exclude) in Hin. done. }
  assert (forall l : list ref,
            filter (fun r => verdict a db excl r = Some true) l = []) as Hnone.
  { intros l. induction l as [|r l IH]; [done|].
    rewrite filter_cons_False; [done|]. by apply verdict_sep_excluded. }
  split_and!; try done.
  - destruct (filter_sources_loop (seq 0 (length db)) (partition_input a db excl))
      as (processed & _ & Hfin & _).
    simpl in Hfin. unfold filter_sources. simpl. rewrite Hfin. simpl. apply Hnone.
  - simpl. intros Hdb.
    pose proof (partition_input_verdict a db excl Hdb) as Hv.
    destruct (filter_sources_loop (seq 0 (length db)) (partition_input a db excl))
      as (processed & _ & Hfin & Hraised & Hall).
    simpl in *. specialize (Hall Hv). subst processed.
    exists (final_state (filter_sources (partition_input a db excl))).
    split; [by apply outcome_normal, Hraised|].
    unfold filter_sources. simpl. rewrite Hfin. simpl. split; [apply Hnone|].
    clear Hfin Hraised. induction Hv as [|r l [b Hb] _ IH]; [done|].
    destruct b; [by apply verdict_sep_excluded in Hb|].
    rewrite filter_cons_True by done. by rewrite IH.
Qed.

Lemma empty_inner_array_excludes_all_witness :
  let fs := example_files [["vendor"]; []]
              [mkEntry "/root/src/y.cpp" "cc -c y.cpp" [];
               mkEntry "/elsewhere/z.cpp" "cc -c z.cpp" []] in
  let a := example_args false in
  exists st1,
    (read_config fs >> read_commands fs) (initial_state a) = Normal st1
    /\ make_exclude [] = sep
    /\ sep ∈ excludes st1
    /\ heap st1 = load_commands fs (path_database (initial_state a))
    /\ commands st1 = seq 0 (length (heap st1))
    /\ commands_inc (final_state (filter_sources st1)) = []
    /\ (Forall (fun e => dirname (file e) <> "") (heap st1) ->
        exists st2, filter_sources st1 = Normal st2
                    /\ commands_inc st2 = []
                    /\ commands_exc st2 = commands st1).
Proof.
  apply (empty_inner_array_excludes_all
           (example_files [["vendor"]; []]
              [mkEntry "/root/src/y.cpp" "cc -c y.cpp" [];
               mkEntry "/elsewhere/z.cpp" "cc -c z.cpp" []])
           (example_args false)).
  - reflexivity.
  - reflexivity.
  - simpl. right. left.
Defined.

End PartitionerProperties.

(** * The Header Rewriter *)

Section HeaderRewriter.

Lemma set_command_same (e : CompileEntry) : set_command (command e) e = e.
Proof. by destruct e. Qed.

Lemma set_heap_same (st : State) : set_heap (heap st) st = st.
Proof. by destruct st. Qed.

Lemma insert_as_alter {A} (f : A -> A) (l : list A) (i : nat) (x : A) :
  l !! i = Some x -> <[i := f x]> l = alter f i l.
Proof.
  revert i. induction l as [|y l IH]; intros [|i]; simpl; try done.
  - by intros [= ->].
  - intros H. f_equal. by apply IH.
Qed.

(** The enumerate loop strips every exclude. *)
Lemma strip_excludes_app (pre todo : list string) :
  strip_excludes todo (length pre) (pre ++ todo) = pre ++ map (Py.lstrip sep) todo.
Proof.
  revert pre. induction todo as [|value rest IH]; intros pre; simpl; [done|].
  rewrite <- (Nat.add_0_r (length pre)) at 2. rewrite insert_app_r. simpl.
  specialize (IH (pre ++ [Py.lstrip sep value])).
  rewrite length_app, <- app_assoc in IH. simpl in IH.
  rewrite Nat.add_1_r in IH. rewrite IH. by rewrite <- app_assoc.
Qed.

Lemma strip_excludes_all (excl : list string) :
  strip_excludes excl 0 excl = map (Py.lstrip sep) excl.
Proof. apply (strip_excludes_app [] excl). Qed.

(** The inner loop rewrites the command of the object [r] in place. *)
Lemma filter_header_loop (r : ref) (excl : list string) (st : State)
    (cmd : CompileEntry) :
  heap st !! r = Some cmd ->
  for_each (filter_header r) excl st
  = Normal (set_heap
              (<[r := set_command
                        (rewrite_command (path_root (args st)) excl (command cmd))
                        cmd]> (heap st)) st).
Proof.
  revert st cmd. induction excl as [|x excl IH]; intros st cmd Hcmd.
  - simpl. unfold rewrite_command. simpl.
    by rewrite set_command_same, list_insert_id, set_heap_same.
  - simpl. unfold filter_header at 1. rewrite Hcmd.
    unfold rewrite_command. simpl. unfold rewrite_include at 2.
    destruct (Py.contains _ (command cmd)).
    + erewrite IH.
      2:{ simpl. apply list_lookup_insert_eq. by eapply lookup_lt_Some. }
      simpl. by rewrite list_insert_insert_eq.
    + by erewrite IH.
Qed.

(** The outer loop does so for every reference of [inc] in turn. *)
Lemma filter_headers_loop (inc : list ref) (st : State) :
  (forall r, r ∈ inc -> r < length (heap st)) ->
  for_each (fun r st' => for_each (filter_header r) (excludes st') st') inc st
  = Normal (set_heap
              (rewrite_heap (path_root (args st)) (excludes st) inc (heap st)) st).
Proof.
  revert st. induction inc as [|r inc IH]; intros st Hvalid.
  - simpl. by rewrite set_heap_same.
  - simpl.
    destruct (lookup_lt_is_Some_2 (heap st) r) as [cmd Hcmd].
    { apply Hvalid. left. }
    rewrite (filter_header_loop r (excludes st) st cmd Hcmd).
    rewrite IH.
    + simpl. by rewrite (insert_as_alter
        (fun e => set_command
                    (rewrite_command (path_root (args st)) (excludes st) (command e)) e)
        (heap st) r cmd Hcmd).
    + intros r' Hr'. simpl. rewrite length_insert. apply Hvalid. by right.
Qed.

Lemma fold_alter_lookup {A} (f : A -> A) (inc : list nat) (h : list A) (r : nat) :
  NoDup inc ->
  fold_left (fun h r => alter f r h) inc h !! r
  = if decide (r ∈ inc) then f <$> h !! r else h !! r.
Proof.
  revert h. induction inc as [|a inc IH]; intros h Hnd; cbn [fold_left].
  - case_decide as H; [|done]. by apply elem_of_nil in H.
  - apply NoDup_cons in Hnd as [Ha Hnd]. rewrite IH by done.
    destruct (decide (r = a)) as [->|Hne].
    + rewrite list_lookup_alter_eq.
      case_decide as H1; [done|]. case_decide as H2; [done|]. destruct H2. left.
    + rewrite list_lookup_alter_ne by done.
      case_decide as H1; case_decide as H2; try done.
      * destruct H2. by right.
      * by apply elem_of_cons in H2 as [?|?].
Qed.

Lemma fold_alter_length {A} (f : A -> A) (inc : list nat) (h : list A) :
  length (fold_left (fun h r => alter f r h) inc h) = length h.
Proof.
  revert h. induction inc as [|a inc IH]; intros h; simpl; [done|].
  by rewrite IH, length_alter.
Qed.

Lemma header_include_nonempty (root x : string) : header_include root x <> "".
Proof. done. Qed.

(** The function of the source refines the relation of the spec. *)
Lemma header_rewriter_spec (root : string) (excl : list string) (text : string) :
  spec_rewrites root excl text (header_rewriter root excl text).
Proof.
  revert text. induction excl as [|x excl IH]; intros text.
  - constructor.
  - unfold header_rewriter, rewrite_command. simpl.
    fold (rewrite_command root (map (Py.lstrip sep) excl)).
    fold (header_rewriter root excl).
    unfold rewrite_include.
    change (header_include root (Py.lstrip sep x)) with (spec_plain_include root x).
    change (header_isystem root (Py.lstrip sep x)) with (spec_system_include root x).
    destruct (Py.contains (spec_plain_include root x) text) eqn:Hc.
    + destruct (replace_pieces (spec_plain_include root x)
                  (spec_system_include root x) text)
        as (pieces & Hne & Hjoin & Hrep & Hfree); [done|].
      eapply rewrites_present; [done| |apply IH].
      rewrite Hrep. rewrite Hjoin at 1. by constructor.
    + by apply rewrites_absent.
Qed.

(** What [filter_headers] does when the flag is set. *)
Lemma filter_headers_set (st : State) :
  isystem (args st) = true ->
  (forall r, r ∈ commands_inc st -> r < length (heap st)) ->
  filter_headers st
  = Normal (set_heap
              (rewrite_heap (path_root (args st)) (map (Py.lstrip sep) (excludes st))
                 (commands_inc st) (heap st))
              (set_excludes (map (Py.lstrip sep) (excludes st)) st)).
Proof.
  intros Hflag Hvalid. unfold filter_headers. rewrite Hflag.
  rewrite strip_excludes_all. by rewrite filter_headers_loop.
Qed.

(** C5: when the header-rewrite flag is set, the Header Rewriter runs to its
    end; for every entry of IncludedSet it leaves [file] and the other fields
    as they were and rewrites [command] as the spec says: for every excluded
    path in turn, if the plain-include form occurs in the command, all its
    occurrences are replaced by the system-include form.  The objects outside
    IncludedSet are left alone. *)
Theorem header_rewriter_replaces_all (st : State) :
  isystem (args st) = true ->
  NoDup (commands_inc st) ->
  (forall r, r ∈ commands_inc st -> r < length (heap st)) ->
  exists st',
    filter_headers st = Normal st'
    /\ excludes st' = map (Py.lstrip sep) (excludes st)
    /\ commands_inc st' = commands_inc st
    /\ commands_exc st' = commands_exc st
    /\ length (heap st') = length (heap st)
    /\ (forall r e,
          r ∈ commands_inc st -> heap st !! r = Some e ->
          exists e',
            heap st' !! r = Some e'
            /\ file e' = file e /\ others e' = others e
            /\ command e' = header_rewriter (path_root (args st)) (excludes st) (command e)
            /\ spec_rewrites (path_root (args st)) (excludes st)
                             (command e) (command e'))
    /\ (forall r, r ∉ commands_inc st -> heap st' !! r = heap st !! r).
Proof.
  intros Hflag Hnd Hvalid. eexists. split; [by apply filter_headers_set|].
  simpl. unfold rewrite_heap. split_and!; try done.
  - apply fold_alter_length.
  - intros r e Hr He. rewrite fold_alter_lookup, decide_True, He by done. simpl.
    eexists. split; [done|]. simpl. split_and!; try done.
    apply header_rewriter_spec.
  - intros r Hr. by rewrite fold_alter_lookup, decide_False.
Qed.

Lemma header_rewriter_replaces_all_witness :
  let st := partition_input (example_args true)
              [mkEntry "/root/src/y.cpp"
                       "cc -I/root/vendor/lib -I/root/src -I/root/vendor/lib -c y.cpp"
                       [("directory", "/root/_build")]]
              ["/vendor/lib"] in
  let st := final_state (filter_sources st) in
  exists st',
    filter_headers st = Normal st'
    /\ excludes st' = map (Py.lstrip sep) (excludes st)
    /\ commands_inc st' = commands_inc st
    /\ commands_exc st' = commands_exc st
    /\ length (heap st') = length (heap st)
    /\ (forall r e,
          r ∈ commands_inc st -> heap st !! r = Some e ->
          exists e',
            heap st' !! r = Some e'
            /\ file e' = file e /\ others e' = others e
            /\ command e' = header_rewriter (path_root (args st)) (excludes st) (command e)
            /\ spec_rewrites (path_root (args st)) (excludes st)
                             (command e) (command e'))
    /\ (forall r, r ∉ commands_inc st -> heap st' !! r = heap st !! r).
Proof.
  apply (header_rewriter_replaces_all
           (final_state
              (filter_sources
                 (partition_input (example_args true)
                    [mkEntry "/root/src/y.cpp"
                       "cc -I/root/vendor/lib -I/root/src -I/root/vendor/lib -c y.cpp"
                       [("directory", "/root/_build")]]
                    ["/vendor/lib"])))).
  - reflexivity.
  - vm_compute. apply NoDup_singleton.
  - vm_compute. intros r [->|[]%elem_of_nil]%elem_of_cons. lia.
Defined.

(** When the Writer ends normally it has written its two files, whole. *)
Lemma save_commands_Normal (st st' : State) :
  save_commands st = Normal st' ->
  written st'
  = written st
    ++ [(join (path_build (args st)) ["compile_commands_inc.json"],
         deref (heap st) (commands_inc st));
        (join (path_build (args st)) ["compile_commands_exc.json"],
         deref (heap st) (commands_exc st))]
  /\ truncated st' = truncated st.
Proof.
  unfold save_commands, and_then, write_json.
  destruct (can_create (args st) _); [|done]. cbn [negb].
  destruct (can_encode (args st) _); [|done]. cbn [args set_written heap].
  destruct (can_create (args st) _); [|done]. cbn [negb].
  destruct (can_encode (args st) _); [|done].
  intros [= <-]. simpl. by rewrite <- app_assoc.
Qed.

(** C7: when the header-rewrite flag is unset, [filter_headers] changes
    nothing at all, so every entry keeps its command string; and every entry
    the Writer then writes is an entry of the database as it was read. *)
Theorem filter_headers_noop_when_unset (st : State) :
  isystem (args st) = false ->
  filter_headers st = Normal st
  /\ (forall r e, heap st !! r = Some e ->
        exists e', heap (final_state (filter_headers st)) !! r = Some e'
                   /\ command e' = command e)
  /\ (forall st', (filter_headers >> save_commands) st = Normal st' ->
        forall path entries e,
          (path, entries) ∈ written st' -> (path, entries) ∉ written st ->
          e ∈ entries -> e ∈ heap st).
Proof.
  intros Hflag.
  assert (filter_headers st = Normal st) as Hfh.
  { unfold filter_headers. by rewrite Hflag. }
  rewrite Hfh. split_and!; [done|by eauto|].
  intros st' Hrun path entries e.
  change ((filter_headers >> save_commands) st)
    with (match filter_headers st with
          | Normal s => save_commands s
          | Raised x s => Raised x s
          end) in Hrun.
  rewrite Hfh in Hrun. apply save_commands_Normal in Hrun as [-> _].
  rewrite elem_of_app. intros [H|H] Hnot; [done|]. clear Hnot.
  assert (forall rs, e ∈ deref (heap st) rs -> e ∈ heap st) as Hderef.
  { intros rs (r & _ & Hr)%list_elem_of_omap. by eapply list_elem_of_lookup_2. }
  apply elem_of_cons in H as [[= _ ->]|H]; [apply Hderef|].
  apply list_elem_of_singleton in H as [= _ ->]. apply Hderef.
Qed.

Lemma filter_headers_noop_when_unset_witness :
  let st := final_state
              (filter_sources
                 (partition_input (example_args false)
                    [mkEntry "/root/src/y.cpp" "cc -I/root/vendor/lib -c y.cpp" []]
                    ["/vendor/lib"])) in
  filter_headers st = Normal st
  /\ (forall r e, heap st !! r = Some e ->
        exists e', heap (final_state (filter_headers st)) !! r = Some e'
                   /\ command e' = command e)
  /\ (forall st', (filter_headers >> save_commands) st = Normal st' ->
        forall path entries e,
          (path, entries) ∈ written st' -> (path, entries) ∉ written st ->
          e ∈ entries -> e ∈ heap st).
Proof.
  apply (filter_headers_noop_when_unset
           (final_state
              (filter_sources
                 (partition_input (example_args false)
                    [mkEntry "/root/src/y.cpp" "cc -I/root/vendor/lib -c y.cpp" []]
                    ["/vendor/lib"])))).
  reflexivity.
Defined.

End HeaderRewriter.

(** * Missing input files *)

Section MissingInput.

#[local] Arguments join : simpl never.

(** C9: a missing config file or compilation database never lets the run
    continue.  In fatal mode, the default, [main] ends at once with exit
    status 1 and the message on stderr; in graceful mode it prints the
    message and ends with exit status 0.  Nothing is written, and when both
    files exist the loaders accept them without any further check. *)
Theorem missing_input_halts (fs : Files) (a : Args) :
  let o := main fs a in
  let config_missing kind :=
    "** " +:+ kind +:+ " - directory exclusion configuration is missing:"
    +:+ newline +:+ path_config a in
  let database_missing kind :=
    "** " +:+ kind +:+ " - CMake-generated compilation database is missing:"
    +:+ newline +:+ join (path_build a) ["compile_commands.json"] in
  GRACEFUL_EXIT = false
  /\ (path_exists fs (path_config a) = false ->
      written (final_state o) = [] /\ commands (final_state o) = []
      /\ excludes (final_state o) = []
      /\ if graceful_exit a
         then raised o = Some (SystemExit (ExitCode 0)) /\ exit_status o = 0
              /\ stdout (final_state o) = [config_missing "ERROR"]
         else raised o = Some (SystemExit (ExitMessage (config_missing "FATAL")))
              /\ exit_status o = 1 /\ stderr o = Some (config_missing "FATAL")
              /\ stdout (final_state o) = [])
  /\ (path_exists fs (path_config a) = true ->
      path_exists fs (join (path_build a) ["compile_commands.json"]) = false ->
      written (final_state o) = [] /\ commands (final_state o) = []
      /\ commands_inc (final_state o) = [] /\ commands_exc (final_state o) = []
      /\ if graceful_exit a
         then raised o = Some (SystemExit (ExitCode 0)) /\ exit_status o = 0
              /\ stdout (final_state o) = [database_missing "ERROR"]
         else raised o = Some (SystemExit (ExitMessage (database_missing "FATAL")))
              /\ exit_status o = 1 /\ stderr o = Some (database_missing "FATAL")
              /\ stdout (final_state o) = [])
  /\ (path_exists fs (path_config a) = true ->
      path_exists fs (join (path_build a) ["compile_commands.json"]) = true ->
      exists st, (read_config fs >> read_commands fs) (initial_state a) = Normal st).
Proof.
  intros o config_missing database_missing. subst o. unfold main, and_then.
  split; [done|]. split_and!.
  - intros Hc. unfold read_config. simpl. rewrite Hc. simpl.
    by destruct (graceful_exit a).
  - intros Hc Hd. rewrite read_config_present by done.
    set (st1 := set_excludes _ _).
    assert (path_database st1 = join (path_build a) ["compile_commands.json"])
      as Hp by done.
    unfold read_commands. rewrite Hp, Hd. subst st1. simpl.
    by destruct (graceful_exit a).
  - intros Hc Hd. eexists. by apply loaders_reach_partition_input.
Qed.

End MissingInput.

(** * Rewriting twice *)

Section RewriteTwice.










(** A text without any of the plain-include forms is left as it is. *)
Lemma rewrite_command_fixed (root : string) (excl : list string) (text : string) :
  Forall (fun y => Py.contains (header_include root y) text = false) excl ->
  rewrite_command root excl text = text.
Proof.
  induction 1 as [|x excl Hx _ IH]; [done|].
  unfold rewrite_command. simpl. unfold rewrite_include at 2. by rewrite Hx.
Qed.




End RewriteTwice.

(** * More on the Partitioner *)

Section PartitionerRuns.

(** *** [dirname] *)

Lemma rfind_None_iff (c : ascii) (s : string) :
  Py.rfind c s = None <-> Py.contains (String c "") s = false.
Proof.
  induction s as [|a s IH]; [done|].
  simpl. rewrite startswith_nil, (Ascii.eqb_sym a c).
  destruct (Py.rfind c s) as [k|].
  - split; [done|]. intros H.
    destruct (Ascii.eqb c a); [done|].
    destruct IH as [_ IH]. by discriminate IH.
  - destruct (Ascii.eqb c a); [done|]. by apply IH.
Qed.

Lemma char_in_sep (c : ascii) : Py.char_in c sep = Ascii.eqb "/" c.
Proof. unfold sep. cbn [Py.char_in]. by destruct (Ascii.eqb "/" c). Qed.

Lemma rstrip_nil_inv (s : string) :
  Py.rstrip sep s = "" -> s = Py.repeat_str sep (String.length s).
Proof.
  induction s as [|a s IH]; [done|].
  cbn [Py.rstrip]. destruct (Py.rstrip sep s) as [|b r] eqn:Hr; [|done].
  rewrite char_in_sep. destruct (Ascii.eqb_spec "/" a) as [<-|]; [|done].
  intros _. by rewrite IH at 1.
Qed.

Lemma substring_0_cons (n : nat) (a : ascii) (s : string) :
  String.substring 0 (S n) (String a s) = String a (String.substring 0 n s).
Proof. done. Qed.

(** [dirname] is empty exactly for a path without separator. *)
Lemma dirname_empty_iff (p : string) :
  dirname p = "" <-> Py.contains sep p = false.
Proof.
  rewrite <- (rfind_None_iff sep_char). unfold dirname, Py.slice_to.
  destruct (Py.rfind sep_char p) as [k|] eqn:Hk.
  - split; [|done]. intros H. exfalso.
    destruct p as [|a p]; [done|].
    rewrite Nat.add_1_r, substring_0_cons in H.
    set (head := String a (String.substring 0 k p)) in *.
    destruct (String.eqb_spec head "") as [|_]; [done|].
    destruct (String.eqb_spec head (Py.repeat_str sep (String.length head)))
      as [Hall|Hnot]; cbn [negb andb] in H; [done|].
    by apply rstrip_nil_inv in H.
  - split; [done|]. intros _. by destruct p.
Qed.

(** *** The decided prefix *)

Lemma decided_prefix (v : nat -> option bool) (cmds : list nat) :
  decided v cmds `prefix_of` cmds.
Proof.
  induction cmds as [|r cmds IH]; simpl; [done|].
  destruct (v r); [by apply prefix_cons|apply prefix_nil].
Qed.

Lemma decided_Forall (v : nat -> option bool) (cmds : list nat) :
  Forall (fun r => is_Some (v r)) (decided v cmds).
Proof.
  induction cmds as [|r cmds IH]; simpl; [done|].
  destruct (v r) eqn:Hv; [|done]. constructor; [by rewrite Hv|done].
Qed.


Lemma decided_ext (v v' : nat -> option bool) (cmds : list nat) :
  (forall r, is_Some (v r) <-> is_Some (v' r)) -> decided v cmds = decided v' cmds.
Proof.
  intros Hv. induction cmds as [|r cmds IH]; simpl; [done|].
  destruct (v r) eqn:H1, (v' r) eqn:H2; try done; [by rewrite IH|..].
  - assert (is_Some (v' r)) as [? ?]; [apply Hv; by rewrite H1|congruence].
  - assert (is_Some (v r)) as [? ?]; [apply Hv; by rewrite H2|congruence].
Qed.

(** The loop classifies exactly the decided prefix and raises at the first
    reference after it, if there is one. *)
Lemma filter_sources_loop_decided (cmds : list ref) (st : State) :
  let v := verdict (args st) (heap st) (excludes st) in
  let o := for_each filter_source cmds st in
  final_state o
  = classified st (filter (fun r => v r = Some true) (decided v cmds))
                  (filter (fun r => v r = Some false) (decided v cmds))
  /\ match cmds !! length (decided v cmds) with
     | None => raised o = None
     | Some r =>
         v r = None
         /\ raised o = Some (match heap st !! r with
                             | None => DanglingReference
                             | Some _ => ValueError "no path specified"
                             end)
     end.
Proof.
  revert st. induction cmds as [|r cmds IH]; intros st v o.
  - subst o. simpl. by rewrite classified_nil.
  - subst o. simpl. rewrite filter_source_cases. fold v.
    destruct (v r) as [[|]|] eqn:Hv.
    + destruct (IH (set_commands_inc (commands_inc st ++ [r]) st)) as [Hfin Hnext].
      simpl in *. fold v in Hfin, Hnext. split; [|done].
      rewrite Hfin, classified_inc, filter_cons_True by done.
      rewrite filter_cons_False; [done|]. by rewrite Hv.
    + destruct (IH (set_commands_exc (commands_exc st ++ [r]) st)) as [Hfin Hnext].
      simpl in *. fold v in Hfin, Hnext. split; [|done].
      rewrite Hfin, classified_exc, (filter_cons_True (fun r => v r = Some false)) by done.
      rewrite filter_cons_False; [done|]. by rewrite Hv.
    + simpl. by rewrite classified_nil.
Qed.

Lemma prefix_of_seq (l : list nat) (n : nat) :
  l `prefix_of` seq 0 n -> l = seq 0 (length l).
Proof.
  intros [k Hk]. trans (take (length l) (seq 0 n)).
  - by rewrite Hk, take_app_length.
  - rewrite take_seq. f_equal.
    apply (f_equal length) in Hk. rewrite length_seq, length_app in Hk. lia.
Qed.

(** In a state built by the loaders the body decides for the reference [r]
    exactly when the [file] of its entry holds a separator. *)
Lemma verdict_is_Some_iff (a : Args) (db : list CompileEntry) (excl : list string)
    (r : nat) (e : CompileEntry) :
  db !! r = Some e ->
  is_Some (verdict a db excl r) <-> Py.contains sep (file e) = true.
Proof.
  intros He. unfold verdict, path_str. rewrite He.
  destruct (relpath (cwd a) (dirname (file e)) (path_root a)) as [rel|] eqn:Hrel.
  - split; [|by eauto]. intros _.
    destruct (Py.contains sep (file e)) eqn:Hc; [done|].
    apply dirname_empty_iff in Hc. rewrite Hc in Hrel. done.
  - apply relpath_None, dirname_empty_iff in Hrel. rewrite Hrel.
    split; [by intros [? ?]|done].
Qed.

Lemma partition_input_decided (a : Args) (db : list CompileEntry) (excl : list string) :
  let o := filter_sources (partition_input a db excl) in
  let v := verdict a db excl in
  let n := length (decided v (seq 0 (length db))) in
  decided v (seq 0 (length db)) = seq 0 n
  /\ n <= length db
  /\ commands_inc (final_state o) = filter (fun r => v r = Some true) (seq 0 n)
  /\ commands_exc (final_state o) = filter (fun r => v r = Some false) (seq 0 n)
  /\ Forall (fun r => is_Some (v r)) (seq 0 n)
  /\ match db !! n with
     | None => raised o = None
     | Some e => v n = None /\ raised o = Some (ValueError "no path specified")
     end.
Proof.
  intros o v n.
  pose proof (decided_prefix v (seq 0 (length db))) as Hpre.
  pose proof (prefix_of_seq _ _ Hpre) as Hseq. fold n in Hseq.
  pose proof (prefix_length _ _ Hpre) as Hlen. rewrite length_seq in Hlen. fold n in Hlen.
  destruct (filter_sources_loop_decided (seq 0 (length db)) (partition_input a db excl))
    as [Hfin Hnext].
  simpl in Hfin, Hnext. fold v in Hfin, Hnext. fold n in Hnext. rewrite Hseq in Hfin.
  split_and!; try done.
  - subst o. unfold filter_sources. simpl. by rewrite Hfin.
  - subst o. unfold filter_sources. simpl. by rewrite Hfin.
  - rewrite <- Hseq. apply decided_Forall.
  - destruct (db !! n) as [e|] eqn:He.
    + assert (n < length db) as Hn by (by eapply lookup_lt_Some).
      rewrite lookup_seq_lt in Hnext by done. simpl in Hnext. by rewrite He in Hnext.
    + apply lookup_ge_None in He. by rewrite lookup_seq_ge in Hnext.
Qed.

Lemma filter_impl_sublist {A} (P Q : A -> Prop)
    `{!forall x, Decision (P x)} `{!forall x, Decision (Q x)} (l : list A) :
  (forall x, x ∈ l -> P x -> Q x) -> filter P l `sublist_of` filter Q l.
Proof.
  induction l as [|x l IH]; intros HPQ; [done|].
  rewrite !filter_cons.
  assert (filter P l `sublist_of` filter Q l) as Hl.
  { apply IH. intros y Hy. apply HPQ. by right. }
  destruct (decide (P x)) as [HP|HP].
  - rewrite decide_True by (apply HPQ; [left|done]). by apply sublist_skip.
  - destruct (decide (Q x)); [by apply sublist_cons|done].
Qed.

Lemma filter_all {A} (P : A -> Prop) `{!forall x, Decision (P x)} (l : list A) :
  Forall P l -> filter P l = l.
Proof.
  induction 1 as [|x l Hx _ IH]; [done|]. by rewrite filter_cons_True, IH.
Qed.

Lemma filter_none {A} (P : A -> Prop) `{!forall x, Decision (P x)} (l : list A) :
  Forall (fun x => ~ P x) l -> filter P l = [].
Proof.
  induction 1 as [|x l Hx _ IH]; [done|]. by rewrite filter_cons_False.
Qed.

(** X1: from the state the loaders build, [filter_sources] ends normally
    exactly when the [file] of every entry holds a path separator.  In any
    case it classifies the entries before the first one without separator,
    and no other; at that entry it raises [ValueError]. *)
Theorem partition_stops_at_first_bare_name
    (a : Args) (db : list CompileEntry) (excl : list string) :
  let o := filter_sources (partition_input a db excl) in
  (raised o = None <-> Forall (fun e => Py.contains sep (file e) = true) db)
  /\ exists n,
       n <= length db
       /\ (forall r e, r < n -> db !! r = Some e -> Py.contains sep (file e) = true)
       /\ (forall r, r ∈ commands_inc (final_state o) \/ r ∈ commands_exc (final_state o)
                     <-> r < n)
       /\ match db !! n with
          | None => raised o = None
          | Some e => Py.contains sep (file e) = false
                      /\ raised o = Some (ValueError "no path specified")
          end.
Proof.
  intros o.
  destruct (partition_input_decided a db excl)
    as (_ & Hn & Hinc & Hexc & Hdec & Hnext).
  fold o in Hinc, Hexc, Hnext.
  set (v := verdict a db excl) in *.
  set (n := length (decided v (seq 0 (length db)))) in *.
  assert (forall r e, r < n -> db !! r = Some e -> Py.contains sep (file e) = true)
    as Hbefore.
  { intros r e Hr He. apply (verdict_is_Some_iff a db excl r e He).
    rewrite Forall_forall in Hdec. apply Hdec, elem_of_seq. lia. }
  assert (match db !! n with
          | None => raised o = None
          | Some e => Py.contains sep (file e) = false
                      /\ raised o = Some (ValueError "no path specified")
          end) as Hstop.
  { destruct (db !! n) as [e|] eqn:He; [|done]. destruct Hnext as [Hv Hr].
    split; [|done]. destruct (Py.contains sep (file e)) eqn:Hc; [|done].
    apply (verdict_is_Some_iff a db excl n e He) in Hc as [? Hc].
    fold v in Hc. congruence. }
  split.
  - split.
    + intros Hnone. apply Forall_lookup. intros r e He.
      apply (Hbefore r e); [|done].
      destruct (db !! n) as [e'|] eqn:Hn'.
      * destruct Hstop as [_ Hr]. congruence.
      * apply lookup_ge_None in Hn'. apply lookup_lt_Some in He. lia.
    + intros Hall. destruct (db !! n) as [e|] eqn:He; [|done].
      destruct Hstop as [Hc _]. rewrite Forall_lookup in Hall.
      specialize (Hall n e He). simpl in Hall. congruence.
  - exists n. split_and!; try done.
    intros r. rewrite Hinc, Hexc, !list_elem_of_filter, !elem_of_seq. split.
    + intros [[_ ?]|[_ ?]]; lia.
    + intros Hr. rewrite Forall_forall in Hdec.
      destruct (Hdec r) as [[|] Hb]; [apply elem_of_seq; lia|left|right];
        (split; [done|lia]).
Qed.

(** X2: [filter_sources] only appends to the two result lists: whether it
    ends or raises, the heap, the exclude list, the database order and
    everything else are as before, and what was in [commands_inc] and
    [commands_exc] is still there, in front. *)
Theorem filter_sources_only_appends (st : State) :
  let st' := final_state (filter_sources st) in
  args st' = args st /\ heap st' = heap st /\ commands st' = commands st
  /\ excludes st' = excludes st /\ stdout st' = stdout st /\ written st' = written st
  /\ commands_inc st `prefix_of` commands_inc st'
  /\ commands_exc st `prefix_of` commands_exc st'.
Proof.
  intros st'. subst st'.
  destruct (filter_sources_loop_decided (commands st) st) as [Hfin _].
  unfold filter_sources. rewrite Hfin. simpl.
  split_and!; try done; by eexists.
Qed.

(** X3: excluding more never includes more.  If every excluded path of one
    list is in another, the run with the larger list raises or ends alike,
    excludes every entry the first run excludes and includes only entries
    the first run includes. *)
Theorem more_excludes_exclude_more
    (a : Args) (db : list CompileEntry) (excl excl' : list string) :
  excl ⊆ excl' ->
  let o := filter_sources (partition_input a db excl) in
  let o' := filter_sources (partition_input a db excl') in
  raised o' = raised o
  /\ commands_exc (final_state o) `sublist_of` commands_exc (final_state o')
  /\ commands_inc (final_state o') `sublist_of` commands_inc (final_state o).
Proof.
  intros Hsub o o'.
  destruct (partition_input_decided a db excl) as (Hd & _ & Hinc & Hexc & Hdec & Hnext).
  destruct (partition_input_decided a db excl')
    as (Hd' & _ & Hinc' & Hexc' & _ & Hnext').
  fold o in Hinc, Hexc, Hnext. fold o' in Hinc', Hexc', Hnext'.
  assert (decided (verdict a db excl') (seq 0 (length db))
          = decided (verdict a db excl) (seq 0 (length db))) as Heq.
  { apply decided_ext. intros r. unfold verdict.
    destruct (db !! r) as [e|]; [|done]. by destruct (path_str a e). }
  rewrite Heq in Hd', Hinc', Hexc', Hnext'.
  set (n := length (decided (verdict a db excl) (seq 0 (length db)))) in *.
  assert (forall r, verdict a db excl r = Some false ->
                    verdict a db excl' r = Some false) as Hmono.
  { intros r. unfold verdict. destruct (db !! r) as [e|]; [|done].
    destruct (path_str a e) as [p|]; [|done]. intros [= H]. f_equal.
    apply include_folder_false in H as (x & Hx & Hc).
    apply include_folder_false. exists x. split; [by apply Hsub|done]. }
  split_and!.
  - destruct (db !! n); [|congruence].
    destruct Hnext as [_ ->]. by destruct Hnext' as [_ ->].
  - rewrite Hexc, Hexc'. apply filter_impl_sublist. intros r _. apply Hmono.
  - rewrite Hinc, Hinc'. apply filter_impl_sublist. intros r Hr Ht.
    rewrite Forall_forall in Hdec. destruct (Hdec r Hr) as [[|] Hb]; [done|].
    apply Hmono in Hb. congruence.
Qed.

Lemma more_excludes_exclude_more_witness :
  let a := example_args false in
  let db := [mkEntry "/root/vendor/lib/x.cpp" "cc -c x.cpp" [];
             mkEntry "/root/src/y.cpp" "cc -c y.cpp" []] in
  let o := filter_sources (partition_input a db ["/vendor"]) in
  let o' := filter_sources (partition_input a db ["/src"; "/vendor"]) in
  raised o' = raised o
  /\ commands_exc (final_state o) `sublist_of` commands_exc (final_state o')
  /\ commands_inc (final_state o') `sublist_of` commands_inc (final_state o).
Proof.
  apply (more_excludes_exclude_more (example_args false)
           [mkEntry "/root/vendor/lib/x.cpp" "cc -c x.cpp" [];
            mkEntry "/root/src/y.cpp" "cc -c y.cpp" []]
           ["/vendor"] ["/src"; "/vendor"]).
  intros x Hx. by right.
Defined.

(** X4: with an empty exclude list nothing is excluded: ExcludedSet stays
    empty and IncludedSet holds, in order, every entry the loop reaches, the
    whole database when the loop ends normally. *)
Theorem no_excludes_nothing_excluded (a : Args) (db : list CompileEntry) :
  let o := filter_sources (partition_input a db []) in
  commands_exc (final_state o) = []
  /\ commands_inc (final_state o) `prefix_of` seq 0 (length db)
  /\ (raised o = None -> commands_inc (final_state o) = seq 0 (length db)).
Proof.
  intros o.
  destruct (partition_input_decided a db []) as (Hd & Hn & Hinc & Hexc & Hdec & Hnext).
  fold o in Hinc, Hexc, Hnext.
  set (v := verdict a db []) in *.
  set (n := length (decided v (seq 0 (length db)))) in *.
  assert (forall r, v r <> Some false) as Hnot.
  { intros r. subst v. unfold verdict. destruct (db !! r) as [e|]; [|done].
    by destruct (path_str a e). }
  assert (commands_inc (final_state o) = seq 0 n) as Hall.
  { rewrite Hinc. apply filter_all. eapply Forall_impl; [done|].
    intros r [[|] Hb]; [done|]. by apply Hnot in Hb. }
  split_and!.
  - rewrite Hexc. apply filter_none, Forall_forall. intros r _. apply Hnot.
  - rewrite Hall, <- Hd. apply decided_prefix.
  - intros Hnone. rewrite Hall. f_equal.
    destruct (db !! n) as [e|] eqn:He.
    + destruct Hnext as [_ ?]. congruence.
    + apply lookup_ge_None in He. lia.
Qed.

End PartitionerRuns.

(** * More on the loaders *)

Section LoaderProperties.

Lemma contains_sep_cons (a : ascii) (s : string) :
  Py.contains sep (String a s) = Ascii.eqb "/" a || Py.contains sep s.
Proof.
  unfold sep. cbn [Py.contains Py.startswith]. rewrite startswith_nil.
  by destruct (Ascii.eqb "/" a).
Qed.

Lemma split_cons (c a : ascii) (s : string) :
  Py.split c (String a s)
  = if Ascii.eqb a c then "" :: Py.split c s
    else match Py.split c s with
         | h :: t => String a h :: t
         | [] => [String a ""]
         end.
Proof. done. Qed.

(** Splitting at the separator cuts off a part that holds none. *)
Lemma split_app_sep (seg rest : string) :
  Py.contains sep seg = false ->
  Py.split sep_char (seg +:+ sep +:+ rest) = seg :: Py.split sep_char rest.
Proof.
  induction seg as [|a seg IH]; intros Hseg.
  - done.
  - rewrite contains_sep_cons in Hseg. apply orb_false_iff in Hseg as [Ha Hseg].
    rewrite str_app_cons, split_cons, IH by done.
    unfold sep_char. by rewrite Ascii.eqb_sym, Ha.
Qed.

Lemma split_no_sep (seg : string) :
  Py.contains sep seg = false -> Py.split sep_char seg = [seg].
Proof.
  induction seg as [|a seg IH]; intros Hseg; [done|].
  rewrite contains_sep_cons in Hseg. apply orb_false_iff in Hseg as [Ha Hseg].
  rewrite split_cons, IH by done.
  unfold sep_char. by rewrite Ascii.eqb_sym, Ha.
Qed.

(** [split] undoes [join] on parts without separator. *)
Lemma split_join (segs : list string) :
  segs <> [] ->
  Forall (fun seg => Py.contains sep seg = false) segs ->
  Py.split sep_char (Py.join sep segs) = segs.
Proof.
  intros Hne Hall. induction Hall as [|seg segs Hseg Hall IH]; [done|].
  destruct segs as [|seg' segs].
  - rewrite join_singleton. by apply split_no_sep.
  - rewrite join_cons_cons, split_app_sep by done. f_equal. by apply IH.
Qed.

Lemma split_abs_path (segs : list string) :
  segs <> [] ->
  Forall (fun seg => Py.contains sep seg = false) segs ->
  Py.split sep_char (abs_path segs) = "" :: segs.
Proof.
  intros Hne Hall. unfold abs_path.
  change (sep +:+ Py.join sep segs) with ("" +:+ sep +:+ Py.join sep segs).
  rewrite split_app_sep by done. f_equal. by apply split_join.
Qed.

(** X5: for an existing config file [read_config] ends normally and appends
    to [excludes], in order, one string per inner array and nothing else.
    Each string starts with the separator, and for a non-empty array whose
    segments hold no separator, splitting the string at the separator gives
    back an empty first part followed by the segments. *)
Theorem read_config_appends_one_exclude_per_array (fs : Files) (st : State) :
  path_exists fs (path_config (args st)) = true ->
  let raw := load_config fs (path_config (args st)) in
  exists st',
    read_config fs st = Normal st'
    /\ excludes st' = excludes st ++ map make_exclude raw
    /\ length (excludes st') = length (excludes st) + length raw
    /\ (forall i segs,
          raw !! i = Some segs ->
          exists x,
            excludes st' !! (length (excludes st) + i) = Some x
            /\ Py.startswith x sep = true
            /\ (segs <> [] ->
                Forall (fun seg => Py.contains sep seg = false) segs ->
                Py.split sep_char x = "" :: segs))
    /\ args st' = args st /\ heap st' = heap st /\ commands st' = commands st
    /\ commands_inc st' = commands_inc st /\ commands_exc st' = commands_exc st
    /\ stdout st' = stdout st /\ written st' = written st.
Proof.
  intros Hc raw. eexists. split; [by apply read_config_present|].
  simpl. fold raw. split_and!; try done.
  - by rewrite length_app, length_map.
  - intros i segs Hi. exists (make_exclude segs). split_and!.
    + rewrite lookup_app_r by lia.
      replace (length (excludes st) + i - length (excludes st)) with i by lia.
      by rewrite list_lookup_fmap, Hi.
    + apply startswith_app.
    + apply split_abs_path.
Qed.

Lemma read_config_appends_one_exclude_per_array_witness :
  let fs' := example_files [["vendor"; "lib"]; ["src"]] [] in
  let st := initial_state (example_args false) in
  let raw := load_config fs' (path_config (args st)) in
  exists st',
    read_config fs' st = Normal st'
    /\ excludes st' = excludes st ++ map make_exclude raw
    /\ length (excludes st') = length (excludes st) + length raw
    /\ (forall i segs,
          raw !! i = Some segs ->
          exists x,
            excludes st' !! (length (excludes st) + i) = Some x
            /\ Py.startswith x sep = true
            /\ (segs <> [] ->
                Forall (fun seg => Py.contains sep seg = false) segs ->
                Py.split sep_char x = "" :: segs))
    /\ args st' = args st /\ heap st' = heap st /\ commands st' = commands st
    /\ commands_inc st' = commands_inc st /\ commands_exc st' = commands_exc st
    /\ stdout st' = stdout st /\ written st' = written st.
Proof.
  apply (read_config_appends_one_exclude_per_array
           (example_files [["vendor"; "lib"]; ["src"]] [])
           (initial_state (example_args false))).
  reflexivity.
Defined.

Lemma deref_seq (pre l : list CompileEntry) :
  deref (pre ++ l) (seq (length pre) (length l)) = l.
Proof.
  revert pre. induction l as [|x l IH]; intros pre; [done|].
  unfold deref. cbn [length seq omap list_omap].
  rewrite lookup_app_r, Nat.sub_diag by done. cbn [lookup list_lookup].
  f_equal. specialize (IH (pre ++ [x])).
  rewrite length_app, Nat.add_1_r, <- app_assoc in IH. apply IH.
Qed.

(** X6: for an existing database [read_commands] ends normally; it puts
    the loaded objects behind the ones already in the heap, which stay as
    they are, and [commands] then refers to the new objects, each once and in
    file order: following the references gives back the loaded array. *)
Theorem read_commands_allocates (fs : Files) (st : State) :
  path_exists fs (path_database st) = true ->
  let loaded := load_commands fs (path_database st) in
  exists st',
    read_commands fs st = Normal st'
    /\ deref (heap st') (commands st') = loaded
    /\ NoDup (commands st')
    /\ (forall r, r ∈ commands st'
                  <-> length (heap st) <= r < length (heap st) + length loaded)
    /\ length (heap st') = length (heap st) + length loaded
    /\ (forall r, r < length (heap st) -> heap st' !! r = heap st !! r)
    /\ args st' = args st /\ excludes st' = excludes st
    /\ commands_inc st' = commands_inc st /\ commands_exc st' = commands_exc st
    /\ stdout st' = stdout st /\ written st' = written st.
Proof.
  intros Hd loaded. eexists. split; [by apply read_commands_present|].
  simpl. fold loaded. split_and!; try done.
  - apply deref_seq.
  - apply NoDup_seq.
  - intros r. apply elem_of_seq.
  - apply length_app.
  - intros r Hr. by apply lookup_app_l.
Qed.

Lemma read_commands_allocates_witness :
  let fs := example_files []
              [mkEntry "/root/src/y.cpp" "cc -c y.cpp" [("directory", "/root/_build")]] in
  let st := initial_state (example_args false) in
  let loaded := load_commands fs (path_database st) in
  exists st',
    read_commands fs st = Normal st'
    /\ deref (heap st') (commands st') = loaded
    /\ NoDup (commands st')
    /\ (forall r, r ∈ commands st'
                  <-> length (heap st) <= r < length (heap st) + length loaded)
    /\ length (heap st') = length (heap st) + length loaded
    /\ (forall r, r < length (heap st) -> heap st' !! r = heap st !! r)
    /\ args st' = args st /\ excludes st' = excludes st
    /\ commands_inc st' = commands_inc st /\ commands_exc st' = commands_exc st
    /\ stdout st' = stdout st /\ written st' = written st.
Proof.
  apply (read_commands_allocates
           (example_files []
              [mkEntry "/root/src/y.cpp" "cc -c y.cpp" [("directory", "/root/_build")]])
           (initial_state (example_args false))).
  reflexivity.
Defined.

End LoaderProperties.

(** * Files under the root directory *)

Section PathsUnderRoot.

Lemma clean_component_inv (c : string) :
  clean_component c = true ->
  c <> "" /\ c <> "." /\ c <> ".." /\ Py.contains sep c = false.
Proof.
  unfold clean_component.
  intros [[[H1 H2]%andb_true_iff H3]%andb_true_iff H4]%andb_true_iff.
  apply negb_true_iff in H1, H2, H3, H4.
  by apply String.eqb_neq in H1, H2, H3.
Qed.

Lemma clean_no_sep (l : list string) :
  Forall (fun c => clean_component c = true) l ->
  Forall (fun c => Py.contains sep c = false) l.
Proof.
  intros H. eapply Forall_impl; [done|].
  by intros c (_ & _ & _ & ?)%clean_component_inv.
Qed.

Lemma clean_first_char (c : string) :
  clean_component c = true ->
  exists a t, c = String a t /\ Ascii.eqb "/" a = false.
Proof.
  intros (Hne & _ & _ & Hsep)%clean_component_inv.
  destruct c as [|a t]; [done|]. exists a, t. split; [done|].
  rewrite contains_sep_cons in Hsep. by apply orb_false_iff in Hsep as [? _].
Qed.

Lemma clean_not_startswith_sep (c : string) :
  clean_component c = true -> Py.startswith c sep = false.
Proof.
  intros (a & t & -> & Ha)%clean_first_char.
  unfold sep. cbn [Py.startswith]. by rewrite Ha.
Qed.

Lemma join_app_ne (sp : string) (l1 l2 : list string) :
  l1 <> [] -> l2 <> [] ->
  Py.join sp (l1 ++ l2) = Py.join sp l1 +:+ sp +:+ Py.join sp l2.
Proof.
  intros H1 H2. induction l1 as [|x [|y l1] IH]; [done|..].
  - destruct l2 as [|z l2]; [done|]. by rewrite join_singleton.
  - change ((x :: y :: l1) ++ l2) with (x :: y :: (l1 ++ l2)).
    rewrite !join_cons_cons. change (y :: l1 ++ l2) with ((y :: l1) ++ l2).
    rewrite IH by done. by rewrite !str_app_assoc.
Qed.

(** The text before a clean last component does not matter: the whole does
    not end with the separator. *)
Lemma not_endswith_sep_clean (pre c : string) :
  clean_component c = true -> Py.endswith (pre +:+ c) sep = false.
Proof.
  intros (Hne & _ & _ & Hsep)%clean_component_inv.
  destruct (Py.endswith (pre +:+ c) sep) eqn:H; [|done].
  apply endswith_spec in H as [h Hh].
  apply app_eq_app_suffix in Hh as [h' ->].
  - rewrite <- (str_app_nil_r sep) in Hsep at 2. by rewrite contains_intro in Hsep.
  - destruct c; [done|]. simpl. lia.
Qed.

Lemma join_clean_last (pre : string) (l : list string) :
  l <> [] -> Forall (fun c => clean_component c = true) l ->
  Py.endswith (pre +:+ Py.join sep l) sep = false.
Proof.
  intros Hne Hall. revert pre.
  induction Hall as [|c l Hc Hall IH]; intros pre; [done|].
  destruct l as [|c' l].
  - rewrite join_singleton. by apply not_endswith_sep_clean.
  - rewrite join_cons_cons, <- !str_app_assoc. by apply IH.
Qed.

Lemma abs_path_not_endswith_sep (l : list string) :
  l <> [] -> Forall (fun c => clean_component c = true) l ->
  Py.endswith (abs_path l) sep = false.
Proof. apply join_clean_last. Qed.

Lemma abs_path_app (l1 l2 : list string) :
  l1 <> [] -> l2 <> [] -> abs_path (l1 ++ l2) = abs_path l1 +:+ sep +:+ Py.join sep l2.
Proof.
  intros H1 H2. unfold abs_path. by rewrite join_app_ne, str_app_assoc.
Qed.

(** *** [dirname] of a directory, a separator and a name *)

Lemma rfind_app_sep (d name : string) :
  Py.contains sep name = false ->
  Py.rfind sep_char (d +:+ sep +:+ name) = Some (String.length d).
Proof.
  intros Hname. apply (rfind_None_iff sep_char) in Hname.
  induction d as [|a d IH].
  - rewrite str_app_nil_l. change (sep +:+ name) with (String "/" name).
    cbn [Py.rfind]. by rewrite Hname.
  - rewrite str_app_cons. cbn [Py.rfind]. by rewrite IH.
Qed.

Lemma substring_app_1 (d t : string) (a : ascii) :
  String.substring 0 (String.length d + 1) (d +:+ String a t) = d +:+ String a "".
Proof.
  induction d as [|b d IH].
  - by destruct t.
  - rewrite !str_app_cons. cbn [String.length Nat.add]. by rewrite substring_0_cons, IH.
Qed.

Lemma rstrip_cons (chars : string) (c : ascii) (s : string) :
  Py.rstrip chars (String c s)
  = match Py.rstrip chars s with
    | EmptyString => if Py.char_in c chars then "" else String c ""
    | r => String c r
    end.
Proof. done. Qed.

Lemma rstrip_app_sep (d : string) :
  d <> "" -> Py.endswith d sep = false -> Py.rstrip sep (d +:+ sep) = d.
Proof.
  induction d as [|c d IH]; [done|]. intros _ Hend.
  rewrite endswith_unfold in Hend.
  destruct (String.eqb_spec (String c d) sep) as [|Hne]; [done|].
  rewrite str_app_cons, rstrip_cons. destruct d as [|c' d].
  - rewrite str_app_nil_l. change (Py.rstrip sep sep) with "".
    rewrite char_in_sep. destruct (Ascii.eqb_spec "/" c) as [<-|]; done.
  - by rewrite IH.
Qed.

Lemma rstrip_repeat_sep (n : nat) : Py.rstrip sep (Py.repeat_str sep n) = "".
Proof.
  induction n as [|n IH]; [done|].
  change (Py.repeat_str sep (S n)) with (String "/" (Py.repeat_str sep n)).
  by rewrite rstrip_cons, IH.
Qed.

Lemma dirname_of_file_in (d name : string) :
  d <> "" -> Py.endswith d sep = false -> Py.contains sep name = false ->
  dirname (d +:+ sep +:+ name) = d.
Proof.
  intros Hd Hend Hname. unfold dirname, Py.slice_to.
  rewrite rfind_app_sep by done.
  change (sep +:+ name) with (String "/" name). rewrite substring_app_1.
  change (String "/" "") with sep.
  destruct (String.eqb_spec (d +:+ sep) "") as [H|_].
  { by destruct d. }
  destruct (String.eqb_spec (d +:+ sep)
              (Py.repeat_str sep (String.length (d +:+ sep)))) as [H|_].
  { apply (f_equal (Py.rstrip sep)) in H.
    rewrite rstrip_repeat_sep, rstrip_app_sep in H by done. done. }
  cbn [negb andb]. by apply rstrip_app_sep.
Qed.

(** *** [normpath] and [relpath] on clean absolute paths *)

Lemma normpath_comps_clean (i : nat) (l acc : list string) :
  Forall (fun c => clean_component c = true) l ->
  normpath_comps i l acc = acc ++ l.
Proof.
  intros Hall. revert acc.
  induction Hall as [|c l Hc Hall IH]; intros acc.
  - by rewrite app_nil_r.
  - apply clean_component_inv in Hc as (H1 & H2 & H3 & _).
    apply String.eqb_neq in H1, H2, H3.
    cbn [normpath_comps]. rewrite H1, H2, H3. cbn [negb orb].
    by rewrite IH, <- app_assoc.
Qed.

Lemma abs_path_cons (c : string) (l : list string) :
  clean_component c = true ->
  exists a t, abs_path (c :: l) = String "/" (String a t) /\ Ascii.eqb "/" a = false.
Proof.
  intros (a & t & -> & Ha)%clean_first_char. unfold abs_path.
  rewrite join_cons_char. by eexists _, _.
Qed.

Lemma normpath_one_slash (p : string) :
  Py.startswith p sep = true ->
  Py.startswith p (Py.repeat_str sep 2) = false ->
  normpath p
  = let path' := sep +:+ Py.join sep (normpath_comps 1 (Py.split sep_char p) []) in
    if String.eqb path' "" then curdir else path'.
Proof.
  intros H1 H2. unfold normpath. rewrite H1, H2.
  destruct (String.eqb_spec p "") as [->|_]; [done|]. done.
Qed.

Lemma normpath_abs_path (l : list string) :
  Forall (fun c => clean_component c = true) l ->
  normpath (abs_path l) = abs_path l.
Proof.
  intros Hall. destruct l as [|c l]; [done|].
  pose proof Hall as Hall'. apply Forall_cons in Hall' as [Hc _].
  destruct (abs_path_cons c l Hc) as (a & t & Ht & Ha).
  rewrite normpath_one_slash.
  - rewrite split_abs_path; [|done|by apply clean_no_sep].
    change (normpath_comps 1 ("" :: c :: l) []) with (normpath_comps 1 (c :: l) []).
    rewrite normpath_comps_clean by done.
    cbn [app]. fold (abs_path (c :: l)). rewrite Ht. done.
  - rewrite Ht. apply startswith_cons. split; [done|apply startswith_nil].
  - rewrite Ht. change (Py.repeat_str sep 2) with "//".
    destruct (Py.startswith _ _) eqn:H; [|done].
    apply startswith_cons in H as [_ H]. apply startswith_cons in H as [<- _].
    done.
Qed.

Lemma nonempty_parts_abs_path (l : list string) :
  Forall (fun c => clean_component c = true) l ->
  nonempty_parts (abs_path l) = l.
Proof.
  intros Hall. unfold nonempty_parts.
  assert (List.filter (fun x => negb (String.eqb x "")) l = l) as Hl.
  { induction Hall as [|c l Hc Hall IH]; [done|].
    apply clean_component_inv in Hc as (H1%String.eqb_neq & _).
    simpl. by rewrite H1, IH. }
  destruct l as [|c l]; [done|].
  rewrite split_abs_path; [|done|by apply clean_no_sep].
  cbn [List.filter String.eqb negb]. apply Hl.
Qed.

Lemma commonprefix_app (l k : list string) : commonprefix l (l ++ k) = l.
Proof.
  induction l as [|x l IH]; [by destruct k|].
  simpl. by rewrite String.eqb_refl, IH.
Qed.

(** [os.path.join] of clean components puts one separator between them. *)
Lemma join_clean (acc : string) (l : list string) :
  acc <> "" -> Py.endswith acc sep = false ->
  Forall (fun c => clean_component c = true) l ->
  join acc l = Py.join sep (acc :: l).
Proof.
  intros Hne Hend Hall. revert acc Hne Hend.
  induction Hall as [|c l Hc Hall IH]; intros acc Hne Hend; [done|].
  unfold join. cbn [fold_left]. fold (join (join_step acc c) l).
  unfold join_step. rewrite clean_not_startswith_sep, Hend by done.
  apply String.eqb_neq in Hne. rewrite Hne. cbn [orb].
  rewrite IH.
  - rewrite join_cons_cons. destruct l as [|c' l]; [done|].
    by rewrite !join_cons_cons, !str_app_assoc.
  - by destruct acc.
  - rewrite <- str_app_assoc. by apply not_endswith_sep_clean.
Qed.

Lemma abs_path_nonempty (l : list string) : abs_path l <> "".
Proof. done. Qed.

Lemma abspath_abs_path (cwd : string) (l : list string) :
  Forall (fun c => clean_component c = true) l ->
  abspath cwd (abs_path l) = abs_path l.
Proof.
  intros Hall. unfold abspath, isabs, abs_path at 1.
  rewrite startswith_app. by apply normpath_abs_path.
Qed.

Lemma relpath_under_root (cwd : string) (rs cs : list string) :
  Forall (fun c => clean_component c = true) rs ->
  Forall (fun c => clean_component c = true) cs ->
  relpath cwd (abs_path (rs ++ cs)) (abs_path rs)
  = Some (match cs with [] => curdir | _ => Py.join sep cs end).
Proof.
  intros Hrs Hcs. unfold relpath.
  destruct (String.eqb_spec (abs_path (rs ++ cs)) "") as [H|_]; [done|].
  rewrite !abspath_abs_path, !nonempty_parts_abs_path
    by (try apply Forall_app; done).
  rewrite commonprefix_app, Nat.sub_diag, drop_app_length. cbn [repeat app].
  destruct cs as [|c cs]; [done|].
  apply Forall_cons in Hcs as [Hc Hcs]. f_equal. apply join_clean; [| |done].
  - by apply clean_component_inv in Hc as [? _].
  - by apply (not_endswith_sep_clean "" c).
Qed.

Lemma path_str_of_file_under_root_core
    (a : Args) (rs cs : list string) (name : string) (e : CompileEntry) :
  rs <> [] ->
  Forall (fun c => clean_component c = true) rs ->
  Forall (fun c => clean_component c = true) cs ->
  Py.contains sep name = false ->
  path_root a = abs_path rs ->
  file e = abs_path (rs ++ cs) +:+ sep +:+ name ->
  path_str a e = Some (match cs with [] => sep +:+ curdir | _ => abs_path cs end).
Proof.
  intros Hne Hrs Hcs Hname Hroot Hfile. unfold path_str.
  rewrite Hfile, Hroot, dirname_of_file_in; [|done| |done].
  - rewrite relpath_under_root by done. by destruct cs.
  - apply abs_path_not_endswith_sep; [by destruct rs|by apply Forall_app].
Qed.

(** X7: for a file that lies, by a clean absolute path, somewhere under the
    root directory, the string the Partitioner tests is the separator
    followed by the directory of the file relative to the root (and [/.] for
    a file in the root directory itself), whatever the working directory. *)
Theorem path_str_of_file_under_root
    (a : Args) (rs cs : list string) (name : string) (e : CompileEntry) :
  rs <> [] ->
  Forall (fun c => clean_component c = true) rs ->
  Forall (fun c => clean_component c = true) cs ->
  Py.contains sep name = false ->
  path_root a = abs_path rs ->
  file e = abs_path (rs ++ cs) +:+ sep +:+ name ->
  path_str a e = Some (match cs with [] => sep +:+ curdir | _ => abs_path cs end).
Proof. apply path_str_of_file_under_root_core. Qed.

Lemma path_str_of_file_under_root_witness :
  path_str (example_args false)
           (mkEntry "/root/vendor/lib/x.cpp" "cc -c x.cpp" [])
  = Some (abs_path ["vendor"; "lib"]).
Proof.
  apply (path_str_of_file_under_root (example_args false) ["root"] ["vendor"; "lib"]
           "x.cpp" (mkEntry "/root/vendor/lib/x.cpp" "cc -c x.cpp" [])).
  - done.
  - by repeat constructor.
  - by repeat constructor.
  - reflexivity.
  - reflexivity.
  - reflexivity.
Defined.

(** X8: a file that lies, by a clean absolute path, in a directory given by
    the config (segments relative to the root) or anywhere below it is
    appended to ExcludedSet. *)
Theorem file_under_excluded_directory_is_excluded
    (st : State) (r : ref) (e : CompileEntry) (rs segs more : list string)
    (name : string) :
  rs <> [] -> segs <> [] ->
  Forall (fun c => clean_component c = true) rs ->
  Forall (fun c => clean_component c = true) segs ->
  Forall (fun c => clean_component c = true) more ->
  Py.contains sep name = false ->
  path_root (args st) = abs_path rs ->
  heap st !! r = Some e ->
  file e = abs_path (rs ++ segs ++ more) +:+ sep +:+ name ->
  make_exclude segs ∈ excludes st ->
  filter_source r st = Normal (set_commands_exc (commands_exc st ++ [r]) st).
Proof.
  intros Hrs Hsegs Crs Csegs Cmore Hname Hroot He Hfile Hin.
  rewrite filter_source_cases. unfold verdict. rewrite He.
  rewrite (path_str_of_file_under_root_core (args st) rs (segs ++ more) name e)
    by (try apply Forall_app; done).
  assert (include_folder (excludes st) (abs_path (segs ++ more)) = false) as Hexcl.
  { apply include_folder_false. exists (make_exclude segs). split; [done|].
    apply contains_here. change (make_exclude segs) with (abs_path segs).
    destruct more as [|m more].
    - rewrite app_nil_r. rewrite <- (str_app_nil_r (abs_path segs)) at 1.
      apply startswith_app.
    - rewrite abs_path_app by done. apply startswith_app. }
  destruct segs as [|s0 segs]; [done|]. cbn [app] in *. by rewrite Hexcl.
Qed.

Lemma file_under_excluded_directory_is_excluded_witness :
  let st := partition_input (example_args false)
              [mkEntry "/root/vendor/lib/deep/x.cpp" "cc -c x.cpp" []]
              [make_exclude ["vendor"; "lib"]] in
  filter_source 0 st = Normal (set_commands_exc (commands_exc st ++ [0]) st).
Proof.
  apply (file_under_excluded_directory_is_excluded
           (partition_input (example_args false)
              [mkEntry "/root/vendor/lib/deep/x.cpp" "cc -c x.cpp" []]
              [make_exclude ["vendor"; "lib"]])
           0 (mkEntry "/root/vendor/lib/deep/x.cpp" "cc -c x.cpp" [])
           ["root"] ["vendor"; "lib"] ["deep"] "x.cpp").
  - done.
  - done.
  - by repeat constructor.
  - by repeat constructor.
  - by repeat constructor.
  - reflexivity.
  - reflexivity.
  - reflexivity.
  - reflexivity.
  - simpl. left.
Defined.

End PathsUnderRoot.

(** * More on the Header Rewriter *)

Section HeaderRewriterProperties.

Lemma lstrip_not_startswith_sep (x : string) :
  Py.startswith (Py.lstrip sep x) sep = false.
Proof.
  induction x as [|c x IH]; [done|].
  cbn [Py.lstrip]. rewrite char_in_sep.
  destruct (Ascii.eqb "/" c) eqn:Hc; [done|].
  unfold sep. cbn [Py.startswith]. by rewrite Hc.
Qed.

(** X9: [os.path.join] drops the root when its second argument starts
    with the separator, as every exclude built by [read_config] does; the
    strip of the leading separators in [filter_headers] is what makes the
    absolute excluded path start with the root, with one separator in
    between unless the root is empty or ends with one. *)
Theorem strip_makes_join_keep_root (root : string) :
  (forall segs, exclude_path root (make_exclude segs) = make_exclude segs)
  /\ (forall x,
        exclude_path root (Py.lstrip sep x)
        = root +:+ (if String.eqb root "" || Py.endswith root sep then "" else sep)
               +:+ Py.lstrip sep x).
Proof.
  split.
  - intros segs. unfold exclude_path, join. cbn [fold_left]. unfold join_step.
    unfold make_exclude. by rewrite startswith_app.
  - intros x. unfold exclude_path, join. cbn [fold_left]. unfold join_step.
    rewrite lstrip_not_startswith_sep.
    by destruct (String.eqb root "" || Py.endswith root sep).
Qed.

Lemma lstrip_make_exclude (segs : list string) :
  segs <> [] -> Forall (fun c => clean_component c = true) segs ->
  Py.lstrip sep (make_exclude segs) = Py.join sep segs.
Proof.
  intros Hne Hall. destruct segs as [|c segs]; [done|].
  apply Forall_cons in Hall as [(a & t & -> & Ha)%clean_first_char _].
  unfold make_exclude. rewrite join_cons_char.
  change (sep +:+ String a (Py.join sep (t :: segs)))
    with (String "/" (String a (Py.join sep (t :: segs)))).
  cbn [Py.lstrip]. rewrite !char_in_sep, Ha. done.
Qed.

(** X10: for a clean root directory and a config entry of clean segments,
    the two flags of the Header Rewriter are [-I] and [-isystem ] followed
    by the absolute path of the excluded directory. *)
Theorem flags_name_the_excluded_directory (rs segs : list string) :
  rs <> [] -> segs <> [] ->
  Forall (fun c => clean_component c = true) rs ->
  Forall (fun c => clean_component c = true) segs ->
  let stripped := Py.lstrip sep (make_exclude segs) in
  header_include (abs_path rs) stripped = "-I" +:+ abs_path (rs ++ segs)
  /\ header_isystem (abs_path rs) stripped = "-isystem " +:+ abs_path (rs ++ segs).
Proof.
  intros Hrs Hsegs Crs Csegs stripped.
  assert (exclude_path (abs_path rs) stripped = abs_path (rs ++ segs)) as Hpath.
  { subst stripped. rewrite lstrip_make_exclude by done.
    unfold exclude_path, join. cbn [fold_left]. unfold join_step.
    destruct segs as [|c segs]; [done|].
    pose proof Csegs as [Hc _]%Forall_cons.
    destruct (clean_first_char c Hc) as (a0 & t & -> & Ha).
    assert (Py.startswith (Py.join sep (String a0 t :: segs)) sep = false) as ->.
    { destruct (Py.startswith _ sep) eqn:H; [|done].
      rewrite join_cons_char in H. apply startswith_cons in H as [<- _]. done. }
    rewrite abs_path_not_endswith_sep by done.
    destruct (String.eqb_spec (abs_path rs) "") as [H|_]; [done|].
    cbn [orb]. by rewrite abs_path_app. }
  unfold header_include, header_isystem. by rewrite Hpath.
Qed.

Lemma flags_name_the_excluded_directory_witness :
  let stripped := Py.lstrip sep (make_exclude ["vendor"; "lib"]) in
  header_include (abs_path ["root"]) stripped
  = "-I" +:+ abs_path (["root"] ++ ["vendor"; "lib"])
  /\ header_isystem (abs_path ["root"]) stripped
     = "-isystem " +:+ abs_path (["root"] ++ ["vendor"; "lib"]).
Proof.
  apply (flags_name_the_excluded_directory ["root"] ["vendor"; "lib"]).
  - done.
  - done.
  - by repeat constructor.
  - by repeat constructor.
Defined.

(** [replace] leaves a text without [old] as it is. *)
Lemma replace_absent (old new s : string) :
  Py.contains old s = false -> Py.replace old new s = s.
Proof.
  intros Habs. destruct (decide (old = "")) as [->|Hold].
  { by rewrite contains_here in Habs by apply startswith_nil. }
  destruct (replace_pieces old new s Hold) as (pieces & Hne & Hjoin & -> & _).
  destruct pieces as [|p [|q pieces]]; [done|by rewrite Hjoin|].
  rewrite Hjoin, join_cons_cons, contains_intro in Habs. done.
Qed.

(** X11: the membership test before [replace] changes nothing: in every
    turn of the inner loop the command of the object becomes the result of
    [replace], whether the plain-include form occurs in it or not. *)
Theorem membership_test_is_redundant
    (r : ref) (exclude : string) (st : State) (cmd : CompileEntry) :
  heap st !! r = Some cmd ->
  filter_header r exclude st
  = Normal (set_heap
              (<[r := set_command
                        (Py.replace (header_include (path_root (args st)) exclude)
                                    (header_isystem (path_root (args st)) exclude)
                                    (command cmd))
                        cmd]> (heap st)) st).
Proof.
  intros Hcmd. unfold filter_header. rewrite Hcmd.
  destruct (Py.contains _ (command cmd)) eqn:Hc; [done|].
  rewrite replace_absent by done.
  by rewrite set_command_same, list_insert_id, set_heap_same.
Qed.

Lemma membership_test_is_redundant_witness :
  let st := partition_input (example_args true)
              [mkEntry "/root/src/y.cpp" "cc -I/root/src -c y.cpp" []] ["vendor"] in
  let cmd := mkEntry "/root/src/y.cpp" "cc -I/root/src -c y.cpp" [] in
  filter_header 0 "vendor" st
  = Normal (set_heap
              (<[0 := set_command
                        (Py.replace (header_include (path_root (args st)) "vendor")
                                    (header_isystem (path_root (args st)) "vendor")
                                    (command cmd))
                        cmd]> (heap st)) st).
Proof.
  apply (membership_test_is_redundant 0 "vendor"
           (partition_input (example_args true)
              [mkEntry "/root/src/y.cpp" "cc -I/root/src -c y.cpp" []] ["vendor"])
           (mkEntry "/root/src/y.cpp" "cc -I/root/src -c y.cpp" [])).
  reflexivity.
Defined.

Lemma rewrite_command_no_flag (root : string) (excl : list string) (text : string) :
  Py.contains "-I" text = false -> rewrite_command root excl text = text.
Proof.
  intros Hno. apply rewrite_command_fixed, Forall_forall. intros x _.
  destruct (Py.contains (header_include root x) text) eqn:Hc; [|done].
  assert (Py.contains "-I" (header_include root x) = true) as Hhi.
  { apply contains_here, startswith_app. }
  pose proof (contains_trans _ _ _ Hhi Hc). congruence.
Qed.

(** X12: an object whose command holds no [-I] at all is the same object
    after [filter_headers], whatever the flag, the root and the excludes. *)
Theorem command_without_include_flag_untouched
    (st : State) (r : ref) (e : CompileEntry) :
  NoDup (commands_inc st) ->
  (forall r', r' ∈ commands_inc st -> r' < length (heap st)) ->
  heap st !! r = Some e ->
  Py.contains "-I" (command e) = false ->
  exists st', filter_headers st = Normal st' /\ heap st' !! r = Some e.
Proof.
  intros Hnd Hvalid He Hno.
  destruct (isystem (args st)) eqn:Hflag.
  - eexists. split; [by apply filter_headers_set|].
    simpl. unfold rewrite_heap. rewrite fold_alter_lookup by done.
    case_decide; [|done]. rewrite He. simpl.
    by rewrite rewrite_command_no_flag, set_command_same.
  - exists st. split; [|done]. unfold filter_headers. by rewrite Hflag.
Qed.

Lemma command_without_include_flag_untouched_witness :
  let e := mkEntry "/root/src/y.cpp" "cc -isystem /usr/include -c y.cpp" [] in
  let st := final_state (filter_sources
                           (partition_input (example_args true) [e] ["/vendor"])) in
  exists st', filter_headers st = Normal st' /\ heap st' !! 0 = Some e.
Proof.
  apply (command_without_include_flag_untouched
           (final_state
              (filter_sources
                 (partition_input (example_args true)
                    [mkEntry "/root/src/y.cpp" "cc -isystem /usr/include -c y.cpp" []]
                    ["/vendor"])))
           0 (mkEntry "/root/src/y.cpp" "cc -isystem /usr/include -c y.cpp" [])).
  - vm_compute. apply NoDup_singleton.
  - vm_compute. intros r [->|[]%elem_of_nil]%elem_of_cons. lia.
  - reflexivity.
  - reflexivity.
Defined.

(** *** Lengths *)

Lemma join_length_shift (old new : string) (d : nat) (pieces : list string) :
  String.length new = String.length old + d ->
  String.length (Py.join new pieces)
  = String.length (Py.join old pieces) + d * (length pieces - 1).
Proof.
  intros Hd. induction pieces as [|x [|y pieces] IH].
  - simpl. lia.
  - rewrite !join_singleton. simpl. lia.
  - rewrite !join_cons_cons, !str_app_length, IH, Hd.
    cbn [length]. rewrite !Nat.sub_succ, !Nat.sub_0_r, (Nat.mul_succ_r d). lia.
Qed.

Lemma rewrite_include_length (root text x : string) :
  exists k,
    String.length (rewrite_include root text x) = String.length text + 7 * k
    /\ (k = 0 -> rewrite_include root text x = text).
Proof.
  unfold rewrite_include.
  destruct (Py.contains (header_include root x) text) eqn:Hc; [|by exists 0].
  destruct (replace_pieces (header_include root x) (header_isystem root x) text)
    as (pieces & Hne & Hjoin & -> & Hfree); [done|].
  exists (length pieces - 1). split.
  - rewrite Hjoin. apply join_length_shift.
    unfold header_include, header_isystem. rewrite !str_app_length. simpl. lia.
  - intros Hk. destruct pieces as [|p [|q pieces]]; [done| |simpl in Hk; lia].
    apply Forall_cons in Hfree as [Hp _].
    rewrite Hjoin, join_singleton in Hc. congruence.
Qed.

Lemma rewrite_command_length (root : string) (excl : list string) (text : string) :
  exists k,
    String.length (rewrite_command root excl text) = String.length text + 7 * k
    /\ (k = 0 -> rewrite_command root excl text = text).
Proof.
  revert text. induction excl as [|x excl IH]; intros text.
  - exists 0. by rewrite Nat.add_0_r.
  - change (rewrite_command root (x :: excl) text)
      with (rewrite_command root excl (rewrite_include root text x)).
    destruct (rewrite_include_length root text x) as (k1 & Hl1 & Hz1).
    destruct (IH (rewrite_include root text x)) as (k2 & Hl2 & Hz2).
    exists (k1 + k2). split; [lia|].
    intros Hk. rewrite Hz2 by lia. apply Hz1. lia.
Qed.

(** X13: the Header Rewriter never shortens a command: every replacement
    makes it 7 characters longer, so the result has the length of the input
    exactly when it is the input. *)
Theorem rewriting_only_lengthens (root : string) (excl : list string) (text : string) :
  let text' := header_rewriter root excl text in
  (exists k, String.length text' = String.length text + 7 * k)
  /\ String.length text <= String.length text'
  /\ (String.length text' = String.length text <-> text' = text).
Proof.
  intros text'. subst text'. unfold header_rewriter.
  destruct (rewrite_command_length root (map (Py.lstrip sep) excl) text)
    as (k & Hl & Hz).
  split_and!; [by exists k|lia|]. split.
  - intros Heq. apply Hz. lia.
  - by intros ->.
Qed.

End HeaderRewriterProperties.

(** * The whole run *)

Section WholeRun.

#[local] Arguments join : simpl never.


















End WholeRun.
